(** * Britecharts line chart: data normalization, scales and nearest-point lookup

    A shallow embedding of [src/charts/line.js]: [cleanData], [buildScales],
    the tick computation of [buildAxis], [findOutNearestDate],
    [getNearestDataPoint], [highlightDataPoints] and [handleMouseMove],
    together with the parts of d3 they call ([d3Collection.nest],
    [d3Array.min]/[max], [d3Array.bisector(..).left]).

    Conventions of the embedding.
    - A JavaScript number is [NaN] or an integer [Num z].  Time values of
      [Date] objects are integers (milliseconds since the epoch); sample
      values are taken integral, where all arithmetic used by the chart
      (comparison, [Math.abs], subtraction) is exact.  An invalid [Date] has
      time value [NaN].
    - [undefined] is [None].
    - The closure variables of [line()] that a function reads are passed to
      it explicitly. *)

From Stdlib Require Import ZArith String Ascii List Lia Bool.
From stdpp Require Import base list gmap strings.
From Equations Require Import Equations.
Import ListNotations.

(** ** JavaScript values *)

Inductive number : Type :=
| NaN
| Num (z : Z).

#[global] Instance number_eq_dec : EqDecision number.
Proof. solve_decision. Defined.

(** [a < b], [a > b], [a >= b]: false as soon as one side is [NaN]. *)
Definition js_lt (a b : number) : bool :=
  match a, b with
  | Num x, Num y => (x <? y)%Z
  | _, _ => false
  end.

Definition js_gt (a b : number) : bool := js_lt b a.

Definition js_ge (a b : number) : bool :=
  match a, b with
  | Num x, Num y => (y <=? x)%Z
  | _, _ => false
  end.

(** [a - b] *)
Definition js_sub (a b : number) : number :=
  match a, b with
  | Num x, Num y => Num (x - y)
  | _, _ => NaN
  end.

(** [Math.abs] *)
Definition Math_abs (a : number) : number :=
  match a with
  | Num x => Num (Z.abs x)
  | NaN => NaN
  end.

(** A JSON-compatible field value: a number, a string, or a missing field. *)
Inductive JsValue : Type :=
| JsUndefined
| JsNumber (n : number)
| JsString (s : string).

#[global] Instance JsValue_eq_dec : EqDecision JsValue.
Proof. solve_decision. Defined.

(** ** Data model *)

(** An element of [topic.dates] as the caller supplies it. *)
Record RawSample : Type := mkRawSample {
  raw_date : string;
  raw_value : JsValue
}.

(** An element of the input [dataByTopic]. *)
Record RawTopic : Type := mkRawTopic {
  raw_topicName : string;
  raw_topic : Z;
  raw_dates : list RawSample
}.

(** An element of [flatData]; it carries the date and value fields as they
    were in the input. *)
Record FlatEntry : Type := mkFlat {
  topicName : string;
  name : Z;
  date : string;
  value : JsValue
}.

#[global] Instance FlatEntry_eq_dec : EqDecision FlatEntry.
Proof. solve_decision. Defined.

(** An element of [dataByDate].  A slot of [topics] that holds a falsy value
    is [None]. *)
Record DataPoint : Type := mkDataPoint {
  dp_date : number;
  topics : list (option FlatEntry)
}.

#[global] Instance DataPoint_eq_dec : EqDecision DataPoint.
Proof. solve_decision. Defined.

(** An element of [topic.dates] after [cleanData]: [d.date] is a [Date],
    [d.value] a number. *)
Record Sample : Type := mkSample {
  s_date : number;
  s_value : number
}.

Record Topic : Type := mkTopic {
  t_topicName : string;
  t_topic : Z;
  dates : list Sample
}.

(** The argument of [cleanData] and its result. *)
Record ChartData : Type := mkChartData {
  in_dataByTopic : option (list RawTopic);
  in_dataByDate : option (list DataPoint)
}.

Record CleanData : Type := mkCleanData {
  dataByTopic : option (list Topic);
  dataByDate : option (list DataPoint)
}.

(** ** d3Collection.nest().key(f).entries(array)

    One group per distinct key, in the order in which keys first occur; the
    members of a group keep the order of [array].  No [sortKeys] is set by
    the chart. *)
Section Nest.
Context {A : Type} (key : A -> string).

(** One turn of the loop of [nest]: push onto the group of [k], or open a
    new group at the end. *)
Fixpoint nest_add (k : string) (v : A) (groups : list (string * list A))
  : list (string * list A) :=
  match groups with
  | [] => [(k, [v])]
  | (k', vs) :: rest =>
      if String.eqb k k' then (k', vs ++ [v]) :: rest
      else (k', vs) :: nest_add k v rest
  end.

Definition nest_entries (array : list A) : list (string * list A) :=
  fold_left (fun groups v => nest_add (key v) v groups) array [].
End Nest.

(** ** cleanData *)
Section CleanData.
(** [new Date(s).getTime()] for a string [s], and the conversion of a
    string by unary [+]; both are the JavaScript runtime's. *)
Variable Date_parse : string -> number.
Variable StringToNumber : string -> number.

(** unary [+] *)
Definition ToNumber (v : JsValue) : number :=
  match v with
  | JsUndefined => NaN
  | JsNumber n => n
  | JsString s => StringToNumber s
  end.

(** [new Date(d)] for a [Date] [d] *)
Definition Date_copy (t : number) : number := t.

Definition getDate (f : FlatEntry) : string := date f.

Definition flatten (raw : list RawTopic) : list FlatEntry :=
  flat_map (fun topic =>
    map (fun d => {| topicName := raw_topicName topic;
                     name := raw_topic topic;
                     date := raw_date d;
                     value := raw_value d |}) (raw_dates topic)) raw.

Definition normalizeSample (d : RawSample) : Sample :=
  {| s_date := Date_parse (raw_date d); s_value := ToNumber (raw_value d) |}.

Definition normalizeTopic (kv : RawTopic) : Topic :=
  {| t_topicName := raw_topicName kv;
     t_topic := raw_topic kv;
     dates := map normalizeSample (raw_dates kv) |}.

Definition nestByDate (flatData : list FlatEntry) : list DataPoint :=
  map (fun d => {| dp_date := Date_parse (fst d); topics := map Some (snd d) |})
      (nest_entries getDate flatData).

Definition cleanData (data : ChartData) : CleanData :=
  match in_dataByTopic data with
  | Some raw =>
      let flatData := flatten raw in
      let byDate := nestByDate flatData in
      let byDate :=
        map (fun d => {| dp_date := Date_copy (dp_date d); topics := topics d |})
            byDate in
      {| dataByTopic := Some (map normalizeTopic raw);
         dataByDate := Some byDate |}
  | None =>
      {| dataByTopic := None; dataByDate := in_dataByDate data |}
  end.
End CleanData.

(** ** d3Array.min and d3Array.max

    [d3Array.min(values, valueof)] looks for the first value that is neither
    [undefined] nor [NaN], then keeps the smallest of the comparable values
    that follow; it returns [undefined] when there is none. *)
Fixpoint d3_min_rest (m : Z) (vs : list (option number)) : Z :=
  match vs with
  | [] => m
  | Some (Num z) :: vs' => d3_min_rest (if (z <? m)%Z then z else m) vs'
  | _ :: vs' => d3_min_rest m vs'
  end.

Fixpoint d3_min_values (vs : list (option number)) : option number :=
  match vs with
  | [] => None
  | Some (Num z) :: vs' => Some (Num (d3_min_rest z vs'))
  | _ :: vs' => d3_min_values vs'
  end.

Definition d3_min {A : Type} (values : list A) (valueof : A -> option number)
  : option number :=
  d3_min_values (map valueof values).

Fixpoint d3_max_rest (m : Z) (vs : list (option number)) : Z :=
  match vs with
  | [] => m
  | Some (Num z) :: vs' => d3_max_rest (if (m <? z)%Z then z else m) vs'
  | _ :: vs' => d3_max_rest m vs'
  end.

Fixpoint d3_max_values (vs : list (option number)) : option number :=
  match vs with
  | [] => None
  | Some (Num z) :: vs' => Some (Num (d3_max_rest z vs'))
  | _ :: vs' => d3_max_values vs'
  end.

Definition d3_max {A : Type} (values : list A) (valueof : A -> option number)
  : option number :=
  d3_max_values (map valueof values).

(** ** Scales *)

(** A d3 continuous scale, as the domain and range given to it. *)
Record ContinuousScale : Type := mkScale {
  domain : number * number;
  range : Z * Z
}.

Record Margin : Type := mkMargin {
  margin_top : Z;
  margin_right : Z;
  margin_bottom : Z;
  margin_left : Z
}.

(** The configuration variables of [line()] read by the modelled functions,
    with their defaults. *)
Record Config : Type := mkConfig {
  margin : Margin;
  width : Z;
  height : Z;
  colorSchema : list string;
  verticalTicks : number
}.

Definition britechartsColorSchema : list string :=
  ["#6aedc7"; "#39c2c9"; "#ffce00"; "#ffa71a"; "#f866b9"; "#998ce3"]%string.

Definition defaultConfig : Config :=
  {| margin := {| margin_top := 60; margin_right := 30; margin_bottom := 40; margin_left := 70 |};
     width := 960;
     height := 500;
     colorSchema := britechartsColorSchema;
     verticalTicks := Num 5 |}.

Definition chartWidth (cfg : Config) : Z :=
  (width cfg - margin_left (margin cfg) - margin_right (margin cfg))%Z.

Definition chartHeight (cfg : Config) : Z :=
  (height cfg - margin_top (margin cfg) - margin_bottom (margin cfg))%Z.

(** What [buildScales] assigns. *)
Record Scales : Type := mkScales {
  xScale : ContinuousScale;
  yScale : ContinuousScale;
  colorScale_domain : list Z;
  colorScale_range : list string;
  topicColorMap : gmap Z string
}.

Inductive Exception : Type :=
| TypeError.

Inductive completion (A : Type) : Type :=
| Return (a : A)
| Throw (e : Exception).
Arguments Return {A} a.
Arguments Throw {A} e.

(** The number a possibly missing value converts to. *)
Definition orNaN (v : option number) : number :=
  match v with
  | Some n => n
  | None => NaN
  end.

Definition getSampleDate (d : Sample) : option number := Some (s_date d).
Definition getValue (d : Sample) : option number := Some (s_value d).
Definition getTopic (t : Topic) : Z := t_topic t.

(** [scaleOrdinal().domain(ds)] keeps the first occurrence of each value. *)
Definition ordinal_domain (ds : list Z) : list Z :=
  fold_left (fun dom d => if decide (d ∈ dom) then dom else dom ++ [d]) ds [].

(** [colorScale.domain().reduce((memo, item, i) => { memo[item] = range[i]; .. }, {})].
    A property set to [undefined] reads like a missing one, so it is left
    out of the map. *)
Definition buildTopicColorMap (dom : list Z) (rng : list string) : gmap Z string :=
  fold_left (fun memo '(i, item) =>
               match rng !! i with
               | Some c => <[item := c]> memo
               | None => memo
               end)
            (imap (fun i item => (i, item)) dom) ∅.

(** The lower bound of the value scale:
    [Math.abs(minY) < 0 ? Math.abs(minY) : 0]. *)
Definition yScaleBottomValue (minY : option number) : number :=
  if js_lt (Math_abs (orNaN minY)) (Num 0) then Math_abs (orNaN minY) else Num 0.

Definition maxY (byTopic : list Topic) : option number :=
  d3_max byTopic (fun t => d3_max (dates t) getValue).

Definition minY (byTopic : list Topic) : option number :=
  d3_min byTopic (fun t => d3_min (dates t) getValue).

Definition minX (byTopic : list Topic) : option number :=
  d3_min byTopic (fun t => d3_min (dates t) getSampleDate).

Definition maxX (byTopic : list Topic) : option number :=
  d3_max byTopic (fun t => d3_max (dates t) getSampleDate).

(** The value scale of [buildScales] before [.nice()] is applied. *)
Definition yScale_before_nice (cfg : Config) (byTopic : list Topic) : ContinuousScale :=
  {| domain := (yScaleBottomValue (minY byTopic), Math_abs (orNaN (maxY byTopic)));
     range := (chartHeight cfg, 0%Z) |}.

Section BuildScales.
(** [scale.nice()] of d3-scale, on the domain. *)
Variable d3_nice : number * number -> number * number.

Definition nice (s : ContinuousScale) : ContinuousScale :=
  {| domain := d3_nice (domain s); range := range s |}.

(** [dataByTopic] is read through [d3Array.min], which takes its [length]:
    a [TypeError] when it is [undefined]. *)
Definition buildScales (cfg : Config) (dataByTopic : option (list Topic))
  : completion Scales :=
  match dataByTopic with
  | None => Throw TypeError
  | Some byTopic =>
      let colorDomain := ordinal_domain (map getTopic byTopic) in
      Return
        {| xScale := {| domain := (orNaN (minX byTopic), orNaN (maxX byTopic));
                        range := (0%Z, chartWidth cfg) |};
           yScale := nice (yScale_before_nice cfg byTopic);
           colorScale_domain := colorDomain;
           colorScale_range := colorSchema cfg;
           topicColorMap := buildTopicColorMap colorDomain (colorSchema cfg) |}
  end.

(** The first steps of [exports]: [cleanData], then [buildScales]. *)
Definition exports (Date_parse StringToNumber : string -> number)
    (cfg : Config) (data : ChartData) : completion (CleanData * Scales) :=
  let cleaned := cleanData Date_parse StringToNumber data in
  match buildScales cfg (dataByTopic cleaned) with
  | Return scales => Return (cleaned, scales)
  | Throw e => Throw e
  end.
End BuildScales.

(** ** buildAxis: the number of ticks of the y axis

    [dataTimeSpan = yScale.domain()[1] - yScale.domain()[0]] and
    [yTickNumber = dataTimeSpan < verticalTicks - 1 ? dataTimeSpan : verticalTicks]. *)
Definition dataTimeSpan (yScale : ContinuousScale) : number :=
  js_sub (snd (domain yScale)) (fst (domain yScale)).

Definition yTickNumber (cfg : Config) (yScale : ContinuousScale) : number :=
  if js_lt (dataTimeSpan yScale) (js_sub (verticalTicks cfg) (Num 1))
  then dataTimeSpan yScale
  else verticalTicks cfg.

(** ** Nearest data point *)

(** [d3Array.ascending] *)
Definition ascending (a b : number) : number :=
  if js_lt a b then Num (-1)
  else if js_gt a b then Num 1
  else if js_ge a b then Num 0
  else NaN.

(** [d3Array.bisector(getDate).left(a, x, lo, hi)]:
    [while (lo < hi) { mid = lo + hi >>> 1;
       if (compare(a[mid], x) < 0) lo = mid + 1; else hi = mid; } return lo;].
    The loop reads [a[mid].date]; with [hi <= a.length] the entry exists. *)
Equations? bisect_left (a : list DataPoint) (x : number) (lo hi : nat) : nat
  by wf (hi - lo) lt :=
  bisect_left a x lo hi with decide (lo < hi) := {
    | right _ => lo
    | left _ with a !! ((lo + hi) / 2) := {
        | None => lo
        | Some d with js_lt (ascending (dp_date d) x) (Num 0) := {
            | true => bisect_left a x ((lo + hi) / 2 + 1) hi
            | false => bisect_left a x lo ((lo + hi) / 2) } } }.
Proof.
  all: change (fst (Nat.divmod (lo + hi) 1 0 1)) with ((lo + hi) / 2);
       assert ((lo + hi) / 2 < hi) by (apply Nat.Div0.div_lt_upper_bound; lia);
       assert (lo <= (lo + hi) / 2) by (apply Nat.div_le_lower_bound; lia);
       lia.
Qed.

(** [findOutNearestDate(x0, d0, d1)]; the entries come with their index in
    [dataByDate], which stands for the identity of the object. *)
Definition findOutNearestDate (x0 : number) (d0 d1 : nat * DataPoint) : nat * DataPoint :=
  if js_gt (js_sub x0 (dp_date (snd d0))) (js_sub (dp_date (snd d1)) x0)
  then d0 else d1.

(** A circle appended to the vertical marker container. *)
Record Circle : Type := mkCircle {
  stroke : option string;
  translateY : number
}.

Inductive Event : Type :=
| customMouseMove (dataPoint : DataPoint) (colorMap : gmap Z string) (x : number).

(** The state of a rendered chart that the mouse handlers read and write. *)
Record Chart : Type := mkChart {
  config : Config;
  scales : Scales;
  byDate : list DataPoint;
  verticalMarkerX : number;
  circles : list Circle;
  dispatched : list Event
}.

(** The comparison function given to [sort] by [highlightDataPoints]:
    [topicColorMap[a.name] < topicColorMap[b.name]], a boolean.  A color
    that is [undefined] compares false. *)
Definition highlightCompare (colorMap : gmap Z string) (a b : FlatEntry) : bool :=
  match colorMap !! name a, colorMap !! name b with
  | Some ca, Some cb => String.ltb ca cb
  | _, _ => false
  end.

(** The number a boolean converts to. *)
Definition Number_of_bool (b : bool) : number := if b then Num 1 else Num 0.

(** [topics.filter(t => !!t)] *)
Definition filterTruthy (ts : list (option FlatEntry)) : list FlatEntry :=
  omap id ts.

Section Interaction.
(** The d3 scale functions [scale(x)] and [scale.invert(p)],
    [Array.prototype.sort], and the conversion of strings by unary [+]. *)
Variable scale_apply : ContinuousScale -> number -> number.
Variable scale_invert : ContinuousScale -> Z -> number.
Variable Array_sort :
  (FlatEntry -> FlatEntry -> number) -> list FlatEntry -> list FlatEntry.
Variable StringToNumber : string -> number.

Definition getNearestDataPoint (c : Chart) (mouseX : Z) : option (nat * DataPoint) :=
  let dateFromInvertedX := scale_invert (xScale (scales c)) mouseX in
  let dataEntryIndex :=
    bisect_left (byDate c) dateFromInvertedX 1 (length (byDate c)) in
  let dataEntryForXPosition :=
    pair dataEntryIndex <$> byDate c !! dataEntryIndex in
  let previousDataEntryForXPosition :=
    pair (dataEntryIndex - 1) <$> byDate c !! (dataEntryIndex - 1) in
  match previousDataEntryForXPosition, dataEntryForXPosition with
  | Some previous, Some entry =>
      Some (findOutNearestDate dateFromInvertedX entry previous)
  | _, _ => dataEntryForXPosition
  end.

Definition moveVerticalMarker (c : Chart) (verticalMarkerXPosition : number) : Chart :=
  {| config := config c; scales := scales c; byDate := byDate c;
     verticalMarkerX := verticalMarkerXPosition;
     circles := circles c; dispatched := dispatched c |}.

Definition cleanDataPointHighlights (c : Chart) : Chart :=
  {| config := config c; scales := scales c; byDate := byDate c;
     verticalMarkerX := verticalMarkerX c;
     circles := []; dispatched := dispatched c |}.

(** The new value of [dataPoint.topics]. *)
Definition highlightTopics (colorMap : gmap Z string) (ts : list (option FlatEntry))
  : list FlatEntry :=
  Array_sort (fun a b => Number_of_bool (highlightCompare colorMap a b))
             (filterTruthy ts).

(** [highlightDataPoints(dataPoint)], for the data point at index [i] of
    [dataByDate]; the assignment to [dataPoint.topics] is seen through
    [dataByDate].  Returns the chart and the updated data point. *)
Definition highlightDataPoints (c : Chart) (i : nat) (dataPoint : DataPoint)
  : Chart * DataPoint :=
  let c := cleanDataPointHighlights c in
  let colorMap := topicColorMap (scales c) in
  let sorted := highlightTopics colorMap (topics dataPoint) in
  let dataPoint' := {| dp_date := dp_date dataPoint; topics := map Some sorted |} in
  let markers :=
    map (fun t => {| stroke := colorMap !! name t;
                     translateY := scale_apply (yScale (scales c))
                                     (ToNumber StringToNumber (value t)) |})
        sorted in
  ({| config := config c; scales := scales c;
      byDate := <[i := dataPoint']> (byDate c);
      verticalMarkerX := verticalMarkerX c;
      circles := circles c ++ markers;
      dispatched := dispatched c |}, dataPoint').

Definition dispatcher_call (c : Chart) (e : Event) : Chart :=
  {| config := config c; scales := scales c; byDate := byDate c;
     verticalMarkerX := verticalMarkerX c;
     circles := circles c; dispatched := dispatched c ++ [e] |}.

(** [handleMouseMove], with the x position of the mouse it reads. *)
Definition handleMouseMove (c : Chart) (mouseX : Z) : Chart :=
  let xPositionOffset := (- margin_left (margin (config c)))%Z in
  match getNearestDataPoint c (mouseX + xPositionOffset) with
  | Some (i, dataPoint) =>
      let dataPointXPosition :=
        scale_apply (xScale (scales c)) (Date_copy (dp_date dataPoint)) in
      let c := moveVerticalMarker c dataPointXPosition in
      let '(c, dataPoint) := highlightDataPoints c i dataPoint in
      dispatcher_call c
        (customMouseMove dataPoint (topicColorMap (scales c)) dataPointXPosition)
  | None => c
  end.
End Interaction.

(** ** A concrete runtime

    The functions that the sections above take as variables, at the
    instances used to run the model on concrete inputs. *)

Definition digitValue (c : ascii) : option Z :=
  let n := Z.of_N (N_of_ascii c) in
  if ((48 <=? n) && (n <=? 57))%Z then Some (n - 48)%Z else None.

(** Reads exactly [n] decimal digits. *)
Fixpoint readDigits (n : nat) (acc : Z) (s : string) : option (Z * string) :=
  match n, s with
  | O, _ => Some (acc, s)
  | S n', String c s' =>
      d ← digitValue c; readDigits n' (10 * acc + d)%Z s'
  | S _, EmptyString => None
  end.

Definition expectChar (c : ascii) (s : string) : option string :=
  match s with
  | String c' s' => if Ascii.eqb c c' then Some s' else None
  | EmptyString => None
  end.

Definition isLeapYear (y : Z) : bool :=
  ((y mod 4 =? 0) && (negb (y mod 100 =? 0) || (y mod 400 =? 0)))%Z.

Definition daysInMonth (y m : Z) : Z :=
  (if m =? 2 then (if isLeapYear y then 29 else 28)
   else if (m =? 4) || (m =? 6) || (m =? 9) || (m =? 11) then 30
   else 31)%Z.

(** Days from 1970-01-01 to the civil date [y]-[m]-[d]. *)
Definition daysFromCivil (y m d : Z) : Z :=
  (let y' := if m <=? 2 then y - 1 else y in
   let era := y' / 400 in
   let yoe := y' - era * 400 in
   let mp := if 2 <? m then m - 3 else m + 9 in
   let doy := (153 * mp + 2) / 5 + d - 1 in
   let doe := yoe * 365 + yoe / 4 - yoe / 100 + doy in
   era * 146097 + doe - 719468)%Z.

Definition msPerDay : Z := 86400000.

(** The calendar date [YYYY-MM-DD] at the start of a date-time string. *)
Definition readDate (s : string) : option (Z * string) :=
  '(y, s) ← readDigits 4 0 s;
  s ← expectChar "-" s;
  '(m, s) ← readDigits 2 0 s;
  s ← expectChar "-" s;
  '(d, s) ← readDigits 2 0 s;
  if ((1 <=? m) && (m <=? 12) && (1 <=? d) && (d <=? daysInMonth y m))%Z
  then Some (daysFromCivil y m d * msPerDay, s)%Z
  else None.

(** The time [THH:mm:ssZ] that may follow. *)
Definition readTime (s : string) : option Z :=
  s ← expectChar "T" s;
  '(h, s) ← readDigits 2 0 s;
  s ← expectChar ":" s;
  '(mi, s) ← readDigits 2 0 s;
  s ← expectChar ":" s;
  '(sec, s) ← readDigits 2 0 s;
  s ← expectChar "Z" s;
  match s with
  | EmptyString =>
      if ((h <=? 23) && (mi <=? 59) && (sec <=? 59))%Z
      then Some (((h * 60 + mi) * 60 + sec) * 1000)%Z
      else None
  | _ => None
  end.

(** [new Date(s).getTime()] on the two forms [YYYY-MM-DD] and
    [YYYY-MM-DDTHH:mm:ssZ] of the ECMAScript date-time string format, both
    read as UTC; any other string gives an invalid date. *)
Definition Date_parse_iso (s : string) : number :=
  match readDate s with
  | Some (day, EmptyString) => Num day
  | Some (day, rest) =>
      match readTime rest with
      | Some t => Num (day + t)
      | None => NaN
      end
  | None => NaN
  end.

Fixpoint readAllDigits (acc : Z) (s : string) : option Z :=
  match s with
  | EmptyString => Some acc
  | String c s' => d ← digitValue c; readAllDigits (10 * acc + d)%Z s'
  end.

(** Unary [+] on a string of decimal digits with an optional sign; the
    empty string converts to [0], any other string to [NaN]. *)
Definition StringToNumber_decimal (s : string) : number :=
  match s with
  | EmptyString => Num 0
  | String "-" (String c s') =>
      match readAllDigits 0 (String c s') with
      | Some n => Num (- n)
      | None => NaN
      end
  | _ =>
      match readAllDigits 0 s with
      | Some n => Num n
      | None => NaN
      end
  end.

(** A linear scale with rounded output ([rangeRound]) and its inverse, by
    interpolation between the two ends; the inverse is rounded down to a
    whole millisecond. *)
Definition linear_apply (s : ContinuousScale) (x : number) : number :=
  match domain s, x with
  | (Num d0, Num d1), Num v =>
      if (d1 =? d0)%Z then NaN
      else Num (fst (range s)
                + (2 * (v - d0) * (snd (range s) - fst (range s)) + (d1 - d0))
                  / (2 * (d1 - d0)))%Z
  | _, _ => NaN
  end.

Definition linear_invert (s : ContinuousScale) (p : Z) : number :=
  match domain s with
  | (Num d0, Num d1) =>
      if (snd (range s) =? fst (range s))%Z then NaN
      else Num (d0 + (p - fst (range s)) * (d1 - d0) / (snd (range s) - fst (range s)))%Z
  | _ => NaN
  end.

(** [scale.nice()] leaves a domain with round bounds as it is. *)
Definition nice_id (d : number * number) : number * number := d.

(** *** Two ways to sort

    An insertion sort that moves an element left past each neighbour [tmp]
    with [comparefn(tmp, element) > 0], and a binary insertion sort that
    looks for the place of [pivot] by testing [comparefn(pivot, a[mid]) < 0].
    Both sort by a consistent comparison function. *)
Section Sorts.
Context {A : Type} (comparefn : A -> A -> number).

(** [prefix] is the sorted part, last element first. *)
Fixpoint insertFromRight (element : A) (prefix : list A) : list A :=
  match prefix with
  | [] => [element]
  | tmp :: rest =>
      if js_gt (comparefn tmp element) (Num 0)
      then tmp :: insertFromRight element rest
      else element :: tmp :: rest
  end.

Definition insertionSort (a : list A) : list A :=
  rev (fold_left (fun prefix element => insertFromRight element prefix) a []).

(** The binary search of the binary insertion sort, on the sorted part
    [sorted] between [lo] and [hi]. *)
Equations? binarySearch (sorted : list A) (pivot : A) (lo hi : nat) : nat
  by wf (hi - lo) lt :=
  binarySearch sorted pivot lo hi with decide (lo < hi) := {
    | right _ => lo
    | left _ with sorted !! (lo + (hi - lo) / 2) := {
        | None => lo
        | Some m with js_lt (comparefn pivot m) (Num 0) := {
            | true => binarySearch sorted pivot lo (lo + (hi - lo) / 2)
            | false => binarySearch sorted pivot (lo + (hi - lo) / 2 + 1) hi } } }.
Proof.
  all: change (fst (Nat.divmod (hi - lo) 1 0 1)) with ((hi - lo) / 2);
       assert ((hi - lo) / 2 < hi - lo)
         by (apply Nat.Div0.div_lt_upper_bound; lia);
       lia.
Qed.

Definition binaryInsert (sorted : list A) (pivot : A) : list A :=
  let i := binarySearch sorted pivot 0 (length sorted) in
  take i sorted ++ pivot :: drop i sorted.

Definition binaryInsertionSort (a : list A) : list A :=
  fold_left binaryInsert a [].
End Sorts.

(** ** Notions used to state the properties *)

(** The distinct elements of a list, in the order in which they first occur. *)
Definition firstOccurrences {K : Type} `{EqDecision K} (ks : list K) : list K :=
  fold_left (fun seen k => if decide (k ∈ seen) then seen else seen ++ [k]) ks [].

(** The raw date strings of a dataset. *)
Definition rawDates (raw : list RawTopic) : list string :=
  map date (flatten raw).

(** The entry of the by-date index for the date string [k]. *)
Definition bucket (Date_parse : string -> number) (flatData : list FlatEntry)
    (k : string) : DataPoint :=
  {| dp_date := Date_parse k;
     topics := map Some (filter (fun f => date f = k) flatData) |}.

(** Dates strictly ascending along the index. *)
Fixpoint strictlyAscending (l : list DataPoint) : bool :=
  match l with
  | a :: (b :: _) as l' => js_lt (dp_date a) (dp_date b) && strictlyAscending l'
  | _ => true
  end.

(** Dates valid and ascending along the index. *)
Fixpoint isAscending (l : list DataPoint) : bool :=
  match l with
  | [] => true
  | a :: l' =>
      js_ge (dp_date a) (dp_date a)
      && match l' with
         | b :: _ => js_ge (dp_date b) (dp_date a)
         | [] => true
         end
      && isAscending l'
  end.

(** Dates valid and ascending, by position. *)
Definition ascendingAt (a : list DataPoint) : Prop :=
  forall i j di dj, i <= j -> a !! i = Some di -> a !! j = Some dj ->
    js_ge (dp_date dj) (dp_date di) = true.

(** The instants of the samples of a dataset. *)
Definition sampleInstants (Date_parse : string -> number) (raw : list RawTopic)
  : list number :=
  map Date_parse (rawDates raw).

(** A by-date index sorted strictly ascending with exactly one entry for each
    instant of the dataset. *)
Definition SortedOnePerInstant (Date_parse : string -> number)
    (raw : list RawTopic) (index : list DataPoint) : Prop :=
  strictlyAscending index = true
  /\ forall t, t ∈ sampleInstants Date_parse raw ->
       exists! i, dp_date <$> index !! i = Some t.

(** The (topic, date, value) triples of the by-topic index, and those of the
    topic list of a by-date entry. *)
Definition Triple : Type := Z * number * JsValue.

Definition topicTriples (byTopic : list Topic) : list Triple :=
  flat_map (fun t => map (fun s => (t_topic t, s_date s, JsNumber (s_value s)))
                         (dates t)) byTopic.

Definition pointTriples (d : DataPoint) : list Triple :=
  map (fun f => (name f, dp_date d, value f)) (filterTruthy (topics d)).

(** The triple of a flattened sample. *)
Definition flatTriple (Date_parse : string -> number) (f : FlatEntry) : Triple :=
  (name f, Date_parse (date f), value f).

(** Each triple of the by-topic index lies in exactly one by-date entry, and
    each triple of a by-date entry lies in the by-topic index. *)
Definition RoundTrip (byTopic : list Topic) (index : list DataPoint) : Prop :=
  (forall tr, tr ∈ topicTriples byTopic ->
     exists! i, exists d, index !! i = Some d /\ tr ∈ pointTriples d)
  /\ (forall i d tr, index !! i = Some d -> tr ∈ pointTriples d ->
        tr ∈ topicTriples byTopic).

Definition isNumber (v : JsValue) : Prop :=
  match v with
  | JsNumber _ => True
  | _ => False
  end.

(** Every value field of the dataset is a number. *)
Definition numericValues (raw : list RawTopic) : Prop :=
  Forall (fun f => isNumber (value f)) (flatten raw).

(** Distinct date strings of the dataset denote distinct instants. *)
Definition distinctInstants (Date_parse : string -> number) (raw : list RawTopic)
  : Prop :=
  forall k1 k2, k1 ∈ rawDates raw -> k2 ∈ rawDates raw ->
    Date_parse k1 = Date_parse k2 -> k1 = k2.

(** A sample whose date or value does not parse. *)
Definition unparsable (Date_parse StringToNumber : string -> number)
    (s : RawSample) : Prop :=
  Date_parse (raw_date s) = NaN \/ ToNumber StringToNumber (raw_value s) = NaN.

Definition hasUnparsable (Date_parse StringToNumber : string -> number)
    (raw : list RawTopic) : Prop :=
  exists t s, t ∈ raw /\ s ∈ raw_dates t /\ unparsable Date_parse StringToNumber s.

Definition throws {A : Type} (c : completion A) : Prop :=
  match c with
  | Throw _ => True
  | Return _ => False
  end.

(** [m] is the greatest sample value of the dataset. *)
Definition isMaxValue (m : Z) (byTopic : list Topic) : Prop :=
  (exists t s, t ∈ byTopic /\ s ∈ dates t /\ s_value s = Num m)
  /\ (forall t s v, t ∈ byTopic -> s ∈ dates t -> s_value s = Num v -> (v <= m)%Z).

(** The tick count [min(configuredCount, span)] when the span is smaller than
    the configured count, the configured count otherwise. *)
Definition clampedTickNumber (span configuredCount : Z) : Z :=
  if (span <? configuredCount)%Z then Z.min configuredCount span
  else configuredCount.

(** A scale whose range has no extent. *)
Definition zeroExtent (s : ContinuousScale) : Prop :=
  fst (range s) = snd (range s).

(** Empty outputs and scales without extent. *)
Definition EmptyHandled (d3_nice : number * number -> number * number)
    (Date_parse StringToNumber : string -> number)
    (cfg : Config) (data : ChartData) : Prop :=
  exists scales,
    exports d3_nice Date_parse StringToNumber cfg data
    = Return ({| dataByTopic := Some []; dataByDate := Some [] |}, scales)
    /\ zeroExtent (xScale scales) /\ zeroExtent (yScale scales).

(** The last entry of the index. *)
Definition lastEntry (l : list DataPoint) : option DataPoint := last l.

(** A result of the lookup at one of the two ends of a non-empty index. *)
Definition NearestEndpoint (index : list DataPoint) (x : Z)
    (result : option (nat * DataPoint)) : Prop :=
  forall first final, index !! 0 = Some first -> lastEntry index = Some final ->
    (js_lt (Num x) (dp_date first) = true -> result = Some (0, first))
    /\ (js_lt (dp_date final) (Num x) = true ->
        result = Some (length index - 1, final)).

(** The absolute time distance between two dates. *)
Definition timeDistance (a b : number) : number := Math_abs (js_sub a b).

(** A result of the lookup that is the nearer, by absolute time distance to
    the date [x], of the entry at index [i] and the entry immediately before
    it: the strictly closer one, the earlier one when both are as near. *)
Definition CloserOfNeighbours (index : list DataPoint) (x : number) (i : nat)
    (result : option (nat * DataPoint)) : Prop :=
  exists entry previous,
    1 <= i
    /\ index !! i = Some entry
    /\ index !! (i - 1) = Some previous
    /\ (js_lt (timeDistance (dp_date entry) x) (timeDistance x (dp_date previous)) = true ->
        result = Some (i, entry))
    /\ (js_lt (timeDistance x (dp_date previous)) (timeDistance (dp_date entry) x) = true ->
        result = Some (i - 1, previous))
    /\ (timeDistance (dp_date entry) x = timeDistance x (dp_date previous) ->
        result = Some (i - 1, previous)).

(** ** Example data *)

Definition sample (d : string) (v : Z) : RawSample :=
  {| raw_date := d; raw_value := JsNumber (Num v) |}.

Definition chartData (raw : list RawTopic) : ChartData :=
  {| in_dataByTopic := Some raw; in_dataByDate := None |}.

(** Two topics: the first date is shared, the second is topic A's alone. *)
Definition twoTopics : list RawTopic :=
  [ {| raw_topicName := "A"; raw_topic := 1;
       raw_dates := [sample "2020-01-01" 1; sample "2020-01-02" 3] |};
    {| raw_topicName := "B"; raw_topic := 2;
       raw_dates := [sample "2020-01-01" 2] |} ]%string.

(** Two topics with one date, the same for both. *)
Definition oneDate : list RawTopic :=
  [ {| raw_topicName := "A"; raw_topic := 1;
       raw_dates := [sample "2020-01-01" 1] |};
    {| raw_topicName := "B"; raw_topic := 2;
       raw_dates := [sample "2020-01-01" 2] |} ]%string.

(** A topic whose samples are not in chronological order. *)
Definition outOfOrder : list RawTopic :=
  [ {| raw_topicName := "A"; raw_topic := 1;
       raw_dates := [sample "2020-01-02" 3; sample "2020-01-01" 1] |} ]%string.

(** One instant written in two ways. *)
Definition twoSpellings : list RawTopic :=
  [ {| raw_topicName := "A"; raw_topic := 1;
       raw_dates := [sample "2020-01-01" 1; sample "2020-01-01T00:00:00Z" 1] |} ]%string.

(** A value given as a string. *)
Definition stringValue : list RawTopic :=
  [ {| raw_topicName := "A"; raw_topic := 1;
       raw_dates := [ {| raw_date := "2020-01-01"; raw_value := JsString "3" |} ] |} ]%string.

(** A date that does not parse. *)
Definition malformed : list RawTopic :=
  [ {| raw_topicName := "A"; raw_topic := 1;
       raw_dates := [sample "2020-01-01" 1; sample "not a date" 2] |} ]%string.

(** No [dataByTopic] at all. *)
Definition absentData : ChartData :=
  {| in_dataByTopic := None; in_dataByDate := None |}.

(** A normalized topic with a value below zero. *)
Definition belowZero : list Topic :=
  [ {| t_topicName := "A"; t_topic := 1;
       dates := [ {| s_date := Num 1577836800000; s_value := Num (-4) |};
                  {| s_date := Num 1577923200000; s_value := Num 3 |} ] |} ]%string.

(** A value scale whose domain spans 4, and one whose domain spans 3. *)
Definition spanFour : ContinuousScale :=
  {| domain := (Num 0, Num 4); range := (400%Z, 0%Z) |}.

Definition spanThree : ContinuousScale :=
  {| domain := (Num 0, Num 3); range := (400%Z, 0%Z) |}.

(** The chart once [exports] has run on [data], under the concrete runtime:
    the marker is drawn at [translate(9999, 0)], no circle is drawn and no
    event has been dispatched. *)
Definition render (cfg : Config) (data : ChartData) : completion Chart :=
  match exports nice_id Date_parse_iso StringToNumber_decimal cfg data with
  | Return (cleaned, scales) =>
      Return {| config := cfg;
                scales := scales;
                byDate := default [] (dataByDate cleaned);
                verticalMarkerX := Num 9999;
                circles := [];
                dispatched := [] |}
  | Throw e => Throw e
  end.

(** Three topics with the same two dates. *)
Definition threeTopics : list RawTopic :=
  [ {| raw_topicName := "A"; raw_topic := 1;
       raw_dates := [sample "2020-01-01" 1; sample "2020-01-02" 1] |};
    {| raw_topicName := "B"; raw_topic := 2;
       raw_dates := [sample "2020-01-01" 2; sample "2020-01-02" 2] |};
    {| raw_topicName := "C"; raw_topic := 3;
       raw_dates := [sample "2020-01-01" 3; sample "2020-01-02" 3] |}
  ]%string.

Definition entryOf (n : string) (t : Z) (v : Z) : FlatEntry :=
  {| topicName := n; name := t; date := "2020-01-01"; value := JsNumber (Num v) |}.

(** ** Further notions *)

(** Valid dates in strictly increasing order. *)
Fixpoint chronological (ts : list number) : bool :=
  match ts with
  | [] => true
  | a :: ts' =>
      js_ge a a
      && match ts' with
         | b :: _ => js_lt a b
         | [] => true
         end
      && chronological ts'
  end.

(** The samples held by the topic lists of a by-date index, entry after
    entry. *)
Definition indexedSamples (index : list DataPoint) : list FlatEntry :=
  concat (map (fun d => filterTruthy (topics d)) index).

(** [m] is the greatest, or the least, of the numbers [proj] reads off the
    samples of the dataset. *)
Definition isGreatestOf (proj : Sample -> number) (m : Z) (byTopic : list Topic)
  : Prop :=
  (exists t s, t ∈ byTopic /\ s ∈ dates t /\ proj s = Num m)
  /\ (forall t s v, t ∈ byTopic -> s ∈ dates t -> proj s = Num v -> (v <= m)%Z).

Definition isLeastOf (proj : Sample -> number) (m : Z) (byTopic : list Topic)
  : Prop :=
  (exists t s, t ∈ byTopic /\ s ∈ dates t /\ proj s = Num m)
  /\ (forall t s v, t ∈ byTopic -> s ∈ dates t -> proj s = Num v -> (m <= v)%Z).

(** The topic at index [j] of the dataset is the first one with its
    identifier. *)
Definition firstOfTopic (byTopic : list Topic) (j : nat) (topic : Topic) : Prop :=
  byTopic !! j = Some topic
  /\ forall j' topic', j' < j -> byTopic !! j' = Some topic' ->
       t_topic topic' <> t_topic topic.

(** The number of distinct identifiers among the topics before index [j]. *)
Definition distinctBefore (byTopic : list Topic) (j : nat) : nat :=
  size (list_to_set (map t_topic (take j byTopic)) : gset Z).

(** ** drawLines: the stroke of each line *)

Inductive Stroke : Type :=
| GradientUrl
| StrokeColor (c : option string).

(** [colorScale(d)] of a d3 ordinal scale: an element at index [i] of the
    domain gets [range[i % range.length]].  An element that is not in the
    domain is given the next index (d3 then adds it to the domain). *)
Definition colorScale (s : Scales) (d : Z) : option string :=
  let rng := colorScale_range s in
  match list_find (fun d' => d' = d) (colorScale_domain s) with
  | Some (i, _) => rng !! (i mod length rng)
  | None => rng !! (length (colorScale_domain s) mod length rng)
  end.

Definition getLineColor (s : Scales) (t : Topic) : option string :=
  colorScale s (t_topic t).

(** The [stroke] style of the paths that [drawLines] appends, one for each
    topic: the gradient when there is a single topic, the color of the topic
    otherwise. *)
Definition drawLines_strokes (s : Scales) (byTopic : list Topic) : list Stroke :=
  map (fun d => if length byTopic =? 1 then GradientUrl
                else StrokeColor (getLineColor s d)) byTopic.

(** * Properties *)

(** ** First occurrences *)
Section FirstOccurrences.
Context {K : Type} `{EqDecision K}.
Implicit Types (k : K) (ks : list K).

Lemma firstOccurrences_snoc ks k :
  firstOccurrences (ks ++ [k])
  = if decide (k ∈ firstOccurrences ks) then firstOccurrences ks
    else firstOccurrences ks ++ [k].
Proof. unfold firstOccurrences. rewrite fold_left_app. reflexivity. Qed.

Lemma firstOccurrences_elem ks k : k ∈ firstOccurrences ks <-> k ∈ ks.
Proof.
  induction ks as [|k' ks IH] using rev_ind; [reflexivity|].
  rewrite firstOccurrences_snoc, elem_of_app, list_elem_of_singleton, <- IH.
  case_decide as Hin.
  - split; [tauto|]. intros [?| ->]; assumption.
  - rewrite elem_of_app, list_elem_of_singleton. reflexivity.
Qed.

Lemma firstOccurrences_NoDup ks : NoDup (firstOccurrences ks).
Proof.
  induction ks as [|k ks IH] using rev_ind; [constructor|].
  rewrite firstOccurrences_snoc. case_decide; [assumption|].
  apply NoDup_app. split_and!; [assumption| |apply NoDup_singleton].
  intros x Hx Hx'. apply list_elem_of_singleton in Hx'. congruence.
Qed.
End FirstOccurrences.

Lemma filter_none {A : Type} (P : A -> Prop) `{forall x, Decision (P x)} (l : list A) :
  (forall x, x ∈ l -> ~ P x) -> filter P l = [].
Proof.
  induction l as [|x l IH]; intros Hl; [reflexivity|].
  rewrite filter_cons_False by (apply Hl; left).
  apply IH. intros y Hy. apply Hl. right. assumption.
Qed.

(** ** nest *)
Section NestFacts.
Context {A : Type} (key : A -> string).
Implicit Types (k : string) (v : A) (l : list A).

Lemma nest_entries_snoc l v :
  nest_entries key (l ++ [v]) = nest_add (key v) v (nest_entries key l).
Proof. unfold nest_entries. rewrite fold_left_app. reflexivity. Qed.

(** Adding to a group that exists changes that group alone. *)
Lemma nest_add_present k v (g : string -> list A) (ks : list string) :
  k ∈ ks -> NoDup ks ->
  nest_add k v (map (fun k' => (k', g k')) ks)
  = map (fun k' => (k', if decide (k' = k) then g k' ++ [v] else g k')) ks.
Proof.
  induction ks as [|k' ks IH]; intros Hin Hnd.
  - inversion Hin.
  - apply NoDup_cons in Hnd as [Hk' Hnd]. simpl.
    destruct (String.eqb_spec k k') as [->|Hne].
    + rewrite decide_True by reflexivity. f_equal.
      apply map_ext_in. intros k'' Hk''. apply list_elem_of_In in Hk''.
      rewrite decide_False by congruence. reflexivity.
    + rewrite decide_False by congruence. f_equal.
      apply IH; [|assumption].
      apply elem_of_cons in Hin as [?|?]; [congruence|assumption].
Qed.

(** Adding under a new key opens a group at the end. *)
Lemma nest_add_absent k v (g : string -> list A) (ks : list string) :
  k ∉ ks ->
  nest_add k v (map (fun k' => (k', g k')) ks)
  = map (fun k' => (k', g k')) ks ++ [(k, [v])].
Proof.
  induction ks as [|k' ks IH]; intros Hin; [reflexivity|].
  apply not_elem_of_cons in Hin as [Hne Hin].
  simpl. destruct (String.eqb_spec k k') as [->|_]; [congruence|].
  f_equal. apply IH. assumption.
Qed.

(** The groups are those of the keys in order of first occurrence, each
    with the elements of that key in their order. *)
Lemma nest_entries_groups l :
  nest_entries key l
  = map (fun k => (k, filter (fun v => key v = k) l))
        (firstOccurrences (map key l)).
Proof.
  induction l as [|v l IH] using rev_ind; [reflexivity|].
  rewrite nest_entries_snoc, IH, map_app. simpl.
  rewrite firstOccurrences_snoc. case_decide as Hin.
  - rewrite nest_add_present by (auto using firstOccurrences_NoDup).
    apply map_ext. intros k. f_equal. rewrite filter_app.
    case_decide as Hk.
    + subst k. rewrite filter_cons_True by reflexivity. reflexivity.
    + rewrite filter_cons_False by congruence. simpl. rewrite app_nil_r. reflexivity.
  - rewrite nest_add_absent by assumption.
    rewrite map_app. simpl. f_equal.
    + apply map_ext_in. intros k Hk. apply list_elem_of_In in Hk.
      f_equal. rewrite filter_app, filter_cons_False, filter_nil, app_nil_r; [reflexivity|].
      intros Heq. congruence.
    + f_equal. f_equal. rewrite filter_app, filter_cons_True by reflexivity.
      rewrite filter_none; [reflexivity|].
      intros x Hx Hkx. apply Hin. apply firstOccurrences_elem.
      rewrite <- Hkx. apply list_elem_of_In, in_map, list_elem_of_In, Hx.
Qed.
End NestFacts.

Lemma firstOccurrences_from {K : Type} `{EqDecision K} (ks seen : list K) :
  fold_left (fun seen k => if decide (k ∈ seen) then seen else seen ++ [k]) ks seen
  = seen ++ filter (fun k => k ∉ seen) (firstOccurrences ks).
Proof.
  induction ks as [|k ks IH] using rev_ind.
  - simpl. rewrite app_nil_r. reflexivity.
  - rewrite fold_left_app, firstOccurrences_snoc. simpl. rewrite IH.
    destruct (decide (k ∈ seen)) as [Hs|Hs].
    + rewrite decide_True by (apply elem_of_app; left; assumption).
      case_decide; [reflexivity|].
      rewrite filter_app, filter_cons_False, filter_nil, app_nil_r by tauto.
      reflexivity.
    + destruct (decide (k ∈ firstOccurrences ks)) as [Hk|Hk].
      * rewrite decide_True; [reflexivity|].
        apply elem_of_app. right. apply list_elem_of_filter. tauto.
      * rewrite decide_False.
        -- rewrite filter_app, filter_cons_True, filter_nil, app_assoc by assumption.
           reflexivity.
        -- rewrite elem_of_app, list_elem_of_filter. tauto.
Qed.

(** The first element comes first; the rest follows without it. *)
Lemma firstOccurrences_cons {K : Type} `{EqDecision K} (k : K) (ks : list K) :
  firstOccurrences (k :: ks) = k :: filter (fun k' => k' <> k) (firstOccurrences ks).
Proof.
  unfold firstOccurrences at 1. simpl.
  rewrite firstOccurrences_from. simpl. f_equal.
  apply list_filter_iff. intros x. rewrite list_elem_of_singleton. reflexivity.
Qed.

(** ** cleanData *)
Section CleanDataFacts.
Variables Date_parse StringToNumber : string -> number.

Lemma nestByDate_buckets flatData :
  nestByDate Date_parse flatData
  = map (bucket Date_parse flatData) (firstOccurrences (map date flatData)).
Proof.
  unfold nestByDate. rewrite (nest_entries_groups getDate), map_map.
  reflexivity.
Qed.

Lemma cleanData_dataByDate raw d :
  dataByDate (cleanData Date_parse StringToNumber
                {| in_dataByTopic := Some raw; in_dataByDate := d |})
  = Some (map (bucket Date_parse (flatten raw)) (firstOccurrences (rawDates raw))).
Proof.
  unfold cleanData. simpl. rewrite nestByDate_buckets, map_map. reflexivity.
Qed.

Lemma cleanData_dataByTopic raw d :
  dataByTopic (cleanData Date_parse StringToNumber
                 {| in_dataByTopic := Some raw; in_dataByDate := d |})
  = Some (map (normalizeTopic Date_parse StringToNumber) raw).
Proof. reflexivity. Qed.

(** The dates of the index are those of the date strings, in the order in
    which the strings first occur. *)
Lemma cleanData_byDate_dates raw d index :
  dataByDate (cleanData Date_parse StringToNumber
                {| in_dataByTopic := Some raw; in_dataByDate := d |})
  = Some index ->
  map dp_date index = map Date_parse (firstOccurrences (rawDates raw)).
Proof.
  rewrite cleanData_dataByDate. intros [= <-]. rewrite map_map. reflexivity.
Qed.

Lemma elem_of_flatten f raw :
  f ∈ flatten raw <->
  exists t s, t ∈ raw /\ s ∈ raw_dates t
    /\ f = {| topicName := raw_topicName t; name := raw_topic t;
              date := raw_date s; value := raw_value s |}.
Proof.
  unfold flatten. rewrite list_elem_of_In, in_flat_map. split.
  - intros (t & Ht & Hf). apply in_map_iff in Hf as (s & <- & Hs).
    exists t, s. rewrite !list_elem_of_In. auto.
  - intros (t & s & Ht & Hs & ->). exists t. rewrite <- list_elem_of_In.
    split; [assumption|]. apply in_map_iff. exists s.
    rewrite <- list_elem_of_In. auto.
Qed.

Lemma elem_of_rawDates k raw :
  k ∈ rawDates raw <-> exists t s, t ∈ raw /\ s ∈ raw_dates t /\ raw_date s = k.
Proof.
  unfold rawDates. rewrite list_elem_of_In, in_map_iff. split.
  - intros (f & <- & Hf). apply list_elem_of_In, elem_of_flatten in Hf
      as (t & s & Ht & Hs & ->). eauto.
  - intros (t & s & Ht & Hs & <-).
    eexists. split; [|apply list_elem_of_In, elem_of_flatten; eauto].
    reflexivity.
Qed.
End CleanDataFacts.

(** C1 (amended).  For every input dataset, the by-date index returned by
    [cleanData] has exactly one entry for each distinct date string of the
    samples of all topics, in the order in which the strings first occur in
    the flattened data; the entry of a string holds its parsed date and the
    samples that carry that string, in their order.  The index is not sorted,
    and grouping is by equality of the date strings. *)
Theorem cleanData_byDate_first_occurrences
    (Date_parse StringToNumber : string -> number)
    (raw : list RawTopic) (d : option (list DataPoint)) :
  dataByDate (cleanData Date_parse StringToNumber
                {| in_dataByTopic := Some raw; in_dataByDate := d |})
  = Some (map (bucket Date_parse (flatten raw)) (firstOccurrences (rawDates raw)))
  /\ NoDup (firstOccurrences (rawDates raw))
  /\ (forall k, k ∈ firstOccurrences (rawDates raw) <->
        exists t s, t ∈ raw /\ s ∈ raw_dates t /\ raw_date s = k)
  /\ (forall k ks, rawDates raw = k :: ks ->
        firstOccurrences (rawDates raw)
        = k :: filter (fun k' => k' <> k) (firstOccurrences ks)).
Proof.
  split_and!.
  - apply cleanData_dataByDate.
  - apply firstOccurrences_NoDup.
  - intros k. rewrite firstOccurrences_elem. apply elem_of_rawDates.
  - intros k ks ->. apply firstOccurrences_cons.
Qed.

(** Two topics, one date shared: the index has two entries, the first with
    both topics, the second with topic A alone; the value scale runs from 0
    to 3. *)
Example twoTopics_scenario :
  exists cleaned scales first second,
    exports nice_id Date_parse_iso StringToNumber_decimal defaultConfig
      (chartData twoTopics) = Return (cleaned, scales)
    /\ dataByDate cleaned = Some [first; second]
    /\ map name (filterTruthy (topics first)) = [1; 2]%Z
    /\ map name (filterTruthy (topics second)) = [1]%Z
    /\ dp_date first = Date_parse_iso "2020-01-01"
    /\ dp_date second = Date_parse_iso "2020-01-02"
    /\ domain (yScale scales) = (Num 0, Num 3).
Proof.
  do 4 eexists. split; [vm_compute; reflexivity|]. split_and!; reflexivity.
Qed.

(** C1, as stated, fails: samples that are not in chronological order give
    an index that is not ascending, and an instant written in two ways gets
    two entries. *)
Lemma cleanData_byDate_not_sorted :
  (exists index,
     dataByDate (cleanData Date_parse_iso StringToNumber_decimal (chartData outOfOrder))
     = Some index
     /\ ~ SortedOnePerInstant Date_parse_iso outOfOrder index)
  /\ (exists index,
     dataByDate (cleanData Date_parse_iso StringToNumber_decimal (chartData twoSpellings))
     = Some index
     /\ ~ SortedOnePerInstant Date_parse_iso twoSpellings index).
Proof.
  split; (eexists; split; [vm_compute; reflexivity|]); intros [Hsorted _];
    vm_compute in Hsorted; discriminate.
Qed.

(** ** The two indices *)
Section RoundTripFacts.
Variables Date_parse StringToNumber : string -> number.

#[local] Abbreviation tripleOf := (flatTriple Date_parse).

Lemma map_lookup {A B : Type} (f : A -> B) (l : list A) (i : nat) :
  map f l !! i = f <$> l !! i.
Proof. exact (list_lookup_fmap f l i). Qed.

Lemma filterTruthy_Some (l : list FlatEntry) : filterTruthy (map Some l) = l.
Proof.
  unfold filterTruthy.
  induction l as [|f l IH]; [reflexivity|].
  change (f :: omap id (map Some l) = f :: l). f_equal. exact IH.
Qed.

Lemma topicTriples_normalize raw :
  numericValues raw ->
  topicTriples (map (normalizeTopic Date_parse StringToNumber) raw)
  = map tripleOf (flatten raw).
Proof.
  unfold numericValues.
  induction raw as [|t raw IH]; intros Hnum; [reflexivity|].
  simpl in *. apply Forall_app in Hnum as [Ht Hraw].
  rewrite map_app, IH by assumption. f_equal.
  rewrite !map_map. apply map_ext_in. intros s Hs.
  rewrite Forall_forall in Ht.
  specialize (Ht {| topicName := raw_topicName t; name := raw_topic t;
                    date := raw_date s; value := raw_value s |}).
  unfold tripleOf. simpl in *.
  destruct (raw_value s) eqn:Hv; simpl in *; try reflexivity; exfalso;
    apply Ht; apply list_elem_of_In, in_map_iff; exists s; rewrite Hv; auto.
Qed.

Lemma pointTriples_bucket flatData k :
  pointTriples (bucket Date_parse flatData k)
  = map tripleOf (filter (fun f => date f = k) flatData).
Proof.
  unfold pointTriples, bucket. simpl. rewrite filterTruthy_Some.
  apply map_ext_in. intros f Hf.
  apply list_elem_of_In, list_elem_of_filter in Hf as [<- _]. reflexivity.
Qed.

Lemma elem_of_pointTriples_bucket flatData k tr :
  tr ∈ pointTriples (bucket Date_parse flatData k) <->
  exists f, f ∈ flatData /\ date f = k /\ tripleOf f = tr.
Proof.
  rewrite pointTriples_bucket, list_elem_of_In, in_map_iff. split.
  - intros (f & Htr & Hf).
    apply list_elem_of_In, list_elem_of_filter in Hf as [Hk Hf]. eauto.
  - intros (f & Hf & Hk & Htr). exists f. split; [assumption|].
    apply list_elem_of_In, list_elem_of_filter. auto.
Qed.

Lemma buckets_round_trip raw :
  numericValues raw -> distinctInstants Date_parse raw ->
  RoundTrip (map (normalizeTopic Date_parse StringToNumber) raw)
            (map (bucket Date_parse (flatten raw)) (firstOccurrences (rawDates raw))).
Proof.
  intros Hnum Hinj. unfold RoundTrip.
  rewrite topicTriples_normalize by assumption. split.
  - intros tr Htr.
    apply list_elem_of_In, in_map_iff in Htr as (f & Htr & Hf).
    apply list_elem_of_In in Hf.
    assert (Hk : date f ∈ rawDates raw)
      by (apply list_elem_of_In, in_map, list_elem_of_In, Hf).
    pose proof Hk as Hk'.
    apply firstOccurrences_elem, list_elem_of_lookup in Hk' as [i Hi].
    exists i. split.
    + exists (bucket Date_parse (flatten raw) (date f)). split.
      * rewrite map_lookup, Hi. reflexivity.
      * apply elem_of_pointTriples_bucket. eauto.
    + intros j (d & Hj & Hd).
      rewrite map_lookup in Hj.
      destruct (firstOccurrences (rawDates raw) !! j) as [k'|] eqn:Hk'j;
        [|discriminate].
      injection Hj as <-.
      apply elem_of_pointTriples_bucket in Hd as (f' & Hf' & Hdate & Htr').
      assert (k' = date f) as ->.
      { apply Hinj; [| assumption |].
        - apply firstOccurrences_elem, (list_elem_of_lookup_2 _ j). assumption.
        - rewrite <- Hdate. unfold tripleOf in *. congruence. }
      exact (NoDup_lookup _ i j _ (firstOccurrences_NoDup _) Hi Hk'j).
  - intros i d tr Hi Hd. rewrite map_lookup in Hi.
    destruct (firstOccurrences (rawDates raw) !! i) as [k|]; [|discriminate].
    injection Hi as <-.
    apply elem_of_pointTriples_bucket in Hd as (f & Hf & _ & Htr).
    apply list_elem_of_In, in_map_iff. exists f.
    rewrite <- list_elem_of_In. auto.
Qed.

(** Distinct instants, in a form that can be decided. *)
Lemma distinctInstants_NoDup raw :
  NoDup (map Date_parse (firstOccurrences (rawDates raw))) ->
  distinctInstants Date_parse raw.
Proof.
  intros Hnd k1 k2 H1 H2 Heq.
  apply firstOccurrences_elem, list_elem_of_lookup in H1 as [i Hi].
  apply firstOccurrences_elem, list_elem_of_lookup in H2 as [j Hj].
  assert (i = j) as ->; [|congruence].
  eapply NoDup_lookup; [exact Hnd| |].
  - rewrite map_lookup, Hi. reflexivity.
  - rewrite map_lookup, Hj. simpl. f_equal. congruence.
Qed.
End RoundTripFacts.

(** C5 (amended).  For every input dataset whose value fields are numbers and
    whose distinct date strings denote distinct instants, each
    (topic, date, value) triple of the by-topic index lies in exactly one
    entry of the by-date index, and each triple of an entry of the by-date
    index lies in the by-topic index. *)
Theorem cleanData_round_trip
    (Date_parse StringToNumber : string -> number)
    (raw : list RawTopic) (d : option (list DataPoint)) :
  numericValues raw ->
  distinctInstants Date_parse raw ->
  exists byTopic index,
    cleanData Date_parse StringToNumber
      {| in_dataByTopic := Some raw; in_dataByDate := d |}
    = {| dataByTopic := Some byTopic; dataByDate := Some index |}
    /\ RoundTrip byTopic index.
Proof.
  intros Hnum Hinj.
  exists (map (normalizeTopic Date_parse StringToNumber) raw),
         (map (bucket Date_parse (flatten raw)) (firstOccurrences (rawDates raw))).
  split; [|apply buckets_round_trip; assumption].
  pose proof (cleanData_dataByDate Date_parse StringToNumber raw d) as Hd.
  pose proof (cleanData_dataByTopic Date_parse StringToNumber raw d) as Ht.
  destruct (cleanData _ _ _) as [bt bd]. simpl in *. congruence.
Qed.

Lemma cleanData_round_trip_witness :
  exists byTopic index,
    cleanData Date_parse_iso StringToNumber_decimal (chartData twoTopics)
    = {| dataByTopic := Some byTopic; dataByDate := Some index |}
    /\ RoundTrip byTopic index.
Proof.
  apply (cleanData_round_trip Date_parse_iso StringToNumber_decimal twoTopics None).
  - unfold numericValues. simpl. repeat constructor.
  - apply distinctInstants_NoDup. vm_compute. repeat constructor.
    + intros H. repeat (apply elem_of_cons in H as [H|H]; [discriminate|]).
      inversion H.
    + apply not_elem_of_nil.
Defined.

(** C5, as stated, fails: with one instant written in two ways a triple lies
    in two entries of the by-date index, and a value given as a string is a
    number in the by-topic index but the string in the by-date index. *)
Lemma cleanData_round_trip_fails :
  (exists byTopic index,
     cleanData Date_parse_iso StringToNumber_decimal (chartData twoSpellings)
     = {| dataByTopic := Some byTopic; dataByDate := Some index |}
     /\ ~ RoundTrip byTopic index)
  /\ (exists byTopic index,
     cleanData Date_parse_iso StringToNumber_decimal (chartData stringValue)
     = {| dataByTopic := Some byTopic; dataByDate := Some index |}
     /\ ~ RoundTrip byTopic index).
Proof.
  split; (eexists; eexists; split; [vm_compute; reflexivity|]).
  - intros [H1 _].
    destruct (H1 (1%Z, Num 1577836800000, JsNumber (Num 1))) as (i & _ & Huniq).
    { vm_compute. left. }
    assert (i = 0) as Hi0.
    { apply Huniq. eexists. split; [reflexivity|]. vm_compute. left. }
    assert (i = 1) as Hi1.
    { apply Huniq. eexists. split; [reflexivity|]. vm_compute. left. }
    congruence.
  - intros [_ H2].
    specialize (H2 0 _ (1%Z, Num 1577836800000, JsString "3") eq_refl).
    vm_compute in H2.
    assert (Hin : (1%Z, Num 1577836800000, JsString "3")
                  ∈ [(1%Z, Num 1577836800000, JsNumber (Num 3))])
      by (apply H2; left).
    apply list_elem_of_singleton in Hin. discriminate.
Qed.

(** C4 (amended).  For every input dataset, also one with samples whose date
    or value does not parse, [cleanData] returns normally and [buildScales]
    builds the scales: no error is raised.  Every sample is kept in the
    by-topic index, with the date the date string parses to (an invalid date
    when it does not parse) and the number the value converts to ([NaN] when
    it does not). *)
Theorem cleanData_keeps_unparsable
    (d3_nice : number * number -> number * number)
    (Date_parse StringToNumber : string -> number)
    (cfg : Config) (raw : list RawTopic) (d : option (list DataPoint)) :
  let data := {| in_dataByTopic := Some raw; in_dataByDate := d |} in
  let cleaned := cleanData Date_parse StringToNumber data in
  (exists scales,
     exports d3_nice Date_parse StringToNumber cfg data = Return (cleaned, scales))
  /\ exists byTopic,
       dataByTopic cleaned = Some byTopic
       /\ Forall2 (fun t t' =>
             t_topic t' = raw_topic t
             /\ Forall2 (fun s s' =>
                   s_date s' = Date_parse (raw_date s)
                   /\ s_value s' = ToNumber StringToNumber (raw_value s))
                  (raw_dates t) (dates t'))
            raw byTopic.
Proof.
  simpl. split.
  - unfold exports. rewrite cleanData_dataByTopic. simpl. eauto.
  - eexists. split; [reflexivity|].
    induction raw as [|t raw' IH]; simpl; constructor; [|exact IH].
    split; [reflexivity|]. simpl.
    induction (raw_dates t) as [|s ss IHs]; simpl; constructor; auto.
Qed.

(** C4, as stated, fails: a dataset with a date that does not parse is
    normalized and its scales are built. *)
Lemma exports_malformed_returns :
  hasUnparsable Date_parse_iso StringToNumber_decimal malformed
  /\ ~ throws (exports nice_id Date_parse_iso StringToNumber_decimal
                 defaultConfig (chartData malformed))
  /\ exists cleaned scales,
       exports nice_id Date_parse_iso StringToNumber_decimal
         defaultConfig (chartData malformed) = Return (cleaned, scales)
       /\ dataByTopic cleaned
          = Some [ {| t_topicName := "A"; t_topic := 1;
                      dates := [ {| s_date := Num 1577836800000; s_value := Num 1 |};
                                 {| s_date := NaN; s_value := Num 2 |} ] |} ].
Proof.
  split_and!.
  - eexists _, (sample "not a date" 2). split_and!.
    + left.
    + right. left.
    + left. reflexivity.
  - vm_compute. tauto.
  - eexists. eexists. split; vm_compute; reflexivity.
Qed.

(** ** buildScales *)

Lemma yScaleBottomValue_zero (m : option number) : yScaleBottomValue m = Num 0.
Proof.
  unfold yScaleBottomValue.
  destruct m as [[|z]|]; simpl; try reflexivity.
  destruct (Z.abs z <? 0)%Z eqn:Hz; [|reflexivity].
  apply Z.ltb_lt in Hz. lia.
Qed.

Lemma d3_max_rest_spec (vs : list (option number)) : forall m,
  (m <= d3_max_rest m vs)%Z
  /\ (forall z, Some (Num z) ∈ vs -> (z <= d3_max_rest m vs)%Z)
  /\ (d3_max_rest m vs = m \/ Some (Num (d3_max_rest m vs)) ∈ vs).
Proof.
  induction vs as [|v vs IH]; intros m; simpl.
  - split_and!; [lia| |auto]. intros z Hz. inversion Hz.
  - destruct v as [[|z]|].
    + destruct (IH m) as (H1 & H2 & H3). split_and!; [assumption| |].
      * intros z' Hz'. apply elem_of_cons in Hz' as [?|?]; [discriminate|auto].
      * destruct H3; [auto|right; right; assumption].
    + destruct (IH (if (m <? z)%Z then z else m)) as (H1 & H2 & H3).
      destruct (Z.ltb_spec m z); split_and!; try lia.
      * intros z' Hz'. apply elem_of_cons in Hz' as [Hz'|?]; [|auto].
        injection Hz' as ->. assumption.
      * destruct H3 as [->|?]; right; [left|right; assumption].
      * intros z' Hz'. apply elem_of_cons in Hz' as [Hz'|?]; [|auto].
        injection Hz' as ->. lia.
      * destruct H3 as [->|?]; [auto|right; right; assumption].
    + destruct (IH m) as (H1 & H2 & H3). split_and!; [assumption| |].
      * intros z' Hz'. apply elem_of_cons in Hz' as [?|?]; [discriminate|auto].
      * destruct H3; [auto|right; right; assumption].
Qed.

(** [d3Array.max] returns a greatest comparable value. *)
Lemma d3_max_values_Some (vs : list (option number)) (r : number) :
  d3_max_values vs = Some r ->
  exists z, r = Num z /\ Some (Num z) ∈ vs
    /\ forall z', Some (Num z') ∈ vs -> (z' <= z)%Z.
Proof.
  induction vs as [|v vs IH]; simpl; [discriminate|].
  destruct v as [[|z]|].
  - intros H. destruct (IH H) as (z & -> & Hin & Hmax).
    exists z. split_and!; [reflexivity|right; assumption|].
    intros z' Hz'. apply elem_of_cons in Hz' as [?|?]; [discriminate|auto].
  - intros [= <-]. destruct (d3_max_rest_spec vs z) as (H1 & H2 & H3).
    eexists. split_and!; [reflexivity| |].
    + destruct H3 as [->|?]; [left|right; assumption].
    + intros z' Hz'. apply elem_of_cons in Hz' as [Hz'|?]; [|auto].
      injection Hz' as ->. assumption.
  - intros H. destruct (IH H) as (z & -> & Hin & Hmax).
    exists z. split_and!; [reflexivity|right; assumption|].
    intros z' Hz'. apply elem_of_cons in Hz' as [?|?]; [discriminate|auto].
Qed.

(** It returns a value as soon as one is comparable. *)
Lemma d3_max_values_defined (vs : list (option number)) (z : Z) :
  Some (Num z) ∈ vs -> exists r, d3_max_values vs = Some (Num r).
Proof.
  induction vs as [|v vs IH]; intros Hin; [inversion Hin|].
  simpl. destruct v as [[|z']|]; eauto;
    apply elem_of_cons in Hin as [?|?]; try discriminate; auto.
Qed.

Lemma maxY_greatest (byTopic : list Topic) (m : Z) :
  isMaxValue m byTopic -> maxY byTopic = Some (Num m).
Proof.
  intros [(t0 & s0 & Ht0 & Hs0 & Hv0) Hmax].
  unfold maxY, d3_max.
  assert (Hinner : forall t r, t ∈ byTopic ->
            d3_max_values (map getValue (dates t)) = Some (Num r) -> (r <= m)%Z).
  { intros t r Ht Hr. apply d3_max_values_Some in Hr as (z & [= <-] & Hin & _).
    apply list_elem_of_In, in_map_iff in Hin as (s & Hs & Hin).
    apply list_elem_of_In in Hin. injection Hs as Hs. eauto. }
  assert (H0 : d3_max_values (map getValue (dates t0)) = Some (Num m)).
  { destruct (d3_max_values_defined (map getValue (dates t0)) m) as [r Hr].
    - apply list_elem_of_In, in_map_iff. exists s0.
      rewrite <- list_elem_of_In. unfold getValue. split; [congruence|assumption].
    - pose proof (Hinner _ _ Ht0 Hr).
      apply d3_max_values_Some in Hr as Hr'. destruct Hr' as (z & [= <-] & _ & Hge).
      assert (m <= r)%Z.
      { apply Hge. apply list_elem_of_In, in_map_iff. exists s0.
        rewrite <- list_elem_of_In. unfold getValue. split; [congruence|assumption]. }
      rewrite Hr. do 2 f_equal. lia. }
  set (outer := map (fun t => d3_max_values (map getValue (dates t))) byTopic).
  assert (Hm : Some (Num m) ∈ outer).
  { apply list_elem_of_In, in_map_iff. exists t0.
    rewrite <- list_elem_of_In. auto. }
  destruct (d3_max_values_defined outer m Hm) as [r Hr].
  apply d3_max_values_Some in Hr as Hr'. destruct Hr' as (z & [= <-] & Hin & Hge).
  apply list_elem_of_In, in_map_iff in Hin as (t & Ht & Hin).
  apply list_elem_of_In in Hin.
  pose proof (Hinner _ _ Hin Ht). pose proof (Hge _ Hm).
  rewrite Hr. do 2 f_equal. lia.
Qed.

(** C6.  For every dataset, [buildScales] gives the value scale, before
    [nice], the lower bound 0 (whatever the least value is, a negative one
    too) and the inverted range [[chartHeight, 0]]; when the dataset has a
    greatest sample value [m], which every dataset with a sample does, the
    domain is [[0, |m|]]. *)
Theorem buildScales_yScale_domain
    (d3_nice : number * number -> number * number)
    (cfg : Config) (byTopic : list Topic) :
  (exists scales,
     buildScales d3_nice cfg (Some byTopic) = Return scales
     /\ yScale scales = nice d3_nice (yScale_before_nice cfg byTopic))
  /\ fst (domain (yScale_before_nice cfg byTopic)) = Num 0
  /\ range (yScale_before_nice cfg byTopic) = (chartHeight cfg, 0%Z)
  /\ (forall m, isMaxValue m byTopic ->
        yScale_before_nice cfg byTopic
        = {| domain := (Num 0, Num (Z.abs m)); range := (chartHeight cfg, 0%Z) |}).
Proof.
  split_and!.
  - eexists. split; reflexivity.
  - apply yScaleBottomValue_zero.
  - reflexivity.
  - intros m Hm. unfold yScale_before_nice.
    rewrite yScaleBottomValue_zero, (maxY_greatest _ _ Hm). reflexivity.
Qed.

Lemma buildScales_yScale_domain_witness :
  isMaxValue 3 belowZero
  /\ yScale_before_nice defaultConfig belowZero
     = {| domain := (Num 0, Num 3); range := (400%Z, 0%Z) |}.
Proof.
  assert (Hmax : isMaxValue 3 belowZero).
  { split.
    - eexists _, _. split_and!; [left|right; left|reflexivity].
    - intros t s v Ht Hs Hv.
      apply list_elem_of_singleton in Ht as ->. simpl in Hs.
      repeat (apply elem_of_cons in Hs as [->|Hs]); [| |inversion Hs];
        simpl in Hv; injection Hv as <-; lia. }
  split; [exact Hmax|].
  exact (proj2 (proj2 (proj2
           (buildScales_yScale_domain nice_id defaultConfig belowZero))) 3%Z Hmax).
Defined.

(** ** buildAxis *)

(** C7 (amended).  For every configured [verticalTicks] count and every
    value-scale domain, the number of y-axis ticks used by [buildAxis] is
    [min(configuredCount, span)], that is the span, whenever the span of the
    domain is smaller than the configured count minus one, and the configured
    count otherwise. *)
Theorem yTickNumber_clamp (cfg : Config) (lo hi configuredCount : Z) (r : Z * Z) :
  verticalTicks cfg = Num configuredCount ->
  yTickNumber cfg {| domain := (Num lo, Num hi); range := r |}
  = Num (if (hi - lo <? configuredCount - 1)%Z
         then Z.min configuredCount (hi - lo)
         else configuredCount).
Proof.
  intros Hticks. unfold yTickNumber, dataTimeSpan. rewrite Hticks. simpl.
  destruct (Z.ltb_spec (hi - lo) (configuredCount - 1)); f_equal; lia.
Qed.

Lemma yTickNumber_clamp_witness :
  verticalTicks defaultConfig = Num 5
  /\ yTickNumber defaultConfig spanThree = Num 3.
Proof.
  split; [reflexivity|].
  exact (yTickNumber_clamp defaultConfig 0 3 5 (400, 0)%Z eq_refl).
Defined.

(** C7, as stated, fails: a domain that spans 4 is smaller than the 5
    configured ticks, yet 5 ticks are used, not [min(5, 4)]. *)
Lemma yTickNumber_span_four :
  dataTimeSpan spanFour = Num 4
  /\ verticalTicks defaultConfig = Num 5
  /\ yTickNumber defaultConfig spanFour = Num 5
  /\ yTickNumber defaultConfig spanFour <> Num (clampedTickNumber 4 5).
Proof. split_and!; try reflexivity. vm_compute. discriminate. Qed.

(** ** An empty dataset *)

(** C8 (amended).  For an empty input dataset (zero topics), [cleanData]
    returns an empty by-topic index and an empty by-date index, and
    [buildScales] succeeds: the time scale gets the domain [[NaN, NaN]] and
    the range [[0, chartWidth]], the value scale the domain [[0, NaN]] (then
    [nice]) and the range [[chartHeight, 0]], and no topic gets a color.  When
    the input has no [dataByTopic], [cleanData] returns it as it is, with the
    [dataByDate] of the input. *)
Theorem exports_empty_dataset
    (d3_nice : number * number -> number * number)
    (Date_parse StringToNumber : string -> number)
    (cfg : Config) (d : option (list DataPoint)) :
  cleanData Date_parse StringToNumber {| in_dataByTopic := Some []; in_dataByDate := d |}
  = {| dataByTopic := Some []; dataByDate := Some [] |}
  /\ exports d3_nice Date_parse StringToNumber cfg
       {| in_dataByTopic := Some []; in_dataByDate := d |}
     = Return
         ({| dataByTopic := Some []; dataByDate := Some [] |},
          {| xScale := {| domain := (NaN, NaN); range := (0%Z, chartWidth cfg) |};
             yScale := nice d3_nice
                         {| domain := (Num 0, NaN); range := (chartHeight cfg, 0%Z) |};
             colorScale_domain := [];
             colorScale_range := colorSchema cfg;
             topicColorMap := ∅ |})
  /\ cleanData Date_parse StringToNumber {| in_dataByTopic := None; in_dataByDate := d |}
     = {| dataByTopic := None; dataByDate := d |}.
Proof. split_and!; reflexivity. Qed.

(** C8, as stated, fails: without [dataByTopic] the by-topic output is
    [undefined] and [buildScales] throws; with zero topics the scales keep
    the full extent of the chart. *)
Lemma exports_empty_not_degenerate :
  ~ EmptyHandled nice_id Date_parse_iso StringToNumber_decimal defaultConfig absentData
  /\ ~ EmptyHandled nice_id Date_parse_iso StringToNumber_decimal defaultConfig
         (chartData []).
Proof.
  split; intros (scales & Hret & Hx & Hy).
  - vm_compute in Hret. discriminate.
  - vm_compute in Hret. injection Hret as <-. vm_compute in Hx. discriminate.
Qed.

(** ** Bisection *)

Lemma ascending_negative (d x : number) :
  js_lt (ascending d x) (Num 0) = js_lt d x.
Proof.
  unfold ascending, js_gt. destruct (js_lt d x) eqn:Hlt; [reflexivity|].
  destruct (js_lt x d); [reflexivity|]. destruct (js_ge d x); reflexivity.
Qed.

Lemma js_ge_trans (a b c : number) :
  js_ge b a = true -> js_ge c b = true -> js_ge c a = true.
Proof.
  destruct a, b, c; simpl; try discriminate.
  rewrite !Z.leb_le. lia.
Qed.

Lemma js_lt_below (a b x : number) :
  js_ge b a = true -> js_lt b x = true -> js_lt a x = true.
Proof.
  destruct a, b, x; simpl; try discriminate.
  rewrite Z.leb_le, !Z.ltb_lt. lia.
Qed.

Lemma js_lt_above (a b x : number) :
  js_ge b a = true -> js_lt a x = false -> js_lt b x = false.
Proof.
  destruct a, b, x; simpl; try discriminate; try reflexivity.
  rewrite Z.leb_le, !Z.ltb_ge. lia.
Qed.

Lemma isAscending_head (x : DataPoint) (l : list DataPoint) :
  isAscending (x :: l) = true ->
  forall d, d ∈ x :: l -> js_ge (dp_date d) (dp_date x) = true.
Proof.
  revert x. induction l as [|y l IH]; intros x Hasc d Hd.
  - apply list_elem_of_singleton in Hd as ->.
    simpl in Hasc. rewrite !andb_true_iff in Hasc. tauto.
  - change (isAscending (x :: y :: l))
      with (js_ge (dp_date x) (dp_date x) && js_ge (dp_date y) (dp_date x)
            && isAscending (y :: l)) in Hasc.
    rewrite !andb_true_iff in Hasc. destruct Hasc as [[Hx Hy] Hl].
    apply elem_of_cons in Hd as [->|Hd]; [assumption|].
    eapply js_ge_trans; [exact Hy|]. apply IH; assumption.
Qed.

Lemma isAscending_tail (x : DataPoint) (l : list DataPoint) :
  isAscending (x :: l) = true -> isAscending l = true.
Proof. simpl. rewrite !andb_true_iff. tauto. Qed.

Lemma isAscending_ascendingAt (a : list DataPoint) :
  isAscending a = true -> ascendingAt a.
Proof.
  induction a as [|x l IH]; intros Hasc i j di dj Hij Hi Hj.
  - discriminate.
  - destruct i as [|i].
    + injection Hi as <-. apply (isAscending_head x l Hasc).
      apply (list_elem_of_lookup_2 _ j). assumption.
    + destruct j as [|j]; [lia|]. simpl in Hi, Hj.
      apply (IH (isAscending_tail _ _ Hasc) i j); [lia|assumption|assumption].
Qed.

(** On an ascending index, bisection returns the insertion point of [x]
    between [lo] and [hi]: the entries before it are earlier than [x], the
    entries from it on are not. *)
Lemma bisect_left_insertion (a : list DataPoint) (x : number) (lo hi : nat) :
  ascendingAt a -> lo <= hi -> hi <= length a ->
  lo <= bisect_left a x lo hi <= hi
  /\ (forall j d, lo <= j < bisect_left a x lo hi -> a !! j = Some d ->
        js_lt (dp_date d) x = true)
  /\ (forall j d, bisect_left a x lo hi <= j < hi -> a !! j = Some d ->
        js_lt (dp_date d) x = false).
Proof.
  intros Hasc. funelim (bisect_left a x lo hi); intros Hle Hlen.
  - split_and!; [lia|lia| |]; intros j d Hj; lia.
  - apply lookup_ge_None in Heq.
    assert ((lo + hi) / 2 < hi) by (apply Nat.Div0.div_lt_upper_bound; lia). lia.
  - assert (Hmid : (lo + hi) / 2 < hi) by (apply Nat.Div0.div_lt_upper_bound; lia).
    assert (Hlo : lo <= (lo + hi) / 2) by (apply Nat.div_le_lower_bound; lia).
    rewrite ascending_negative in Heq.
    destruct (H Hasc) as (Hr & Hbefore & Hafter); [lia|lia|].
    split_and!; [lia|lia| |].
    + intros j d0 Hj Hd0.
      destruct (decide (j <= (lo + hi) / 2)) as [Hjm|Hjm].
      * apply (js_lt_below _ (dp_date d)); [|assumption].
        apply (Hasc j ((lo + hi) / 2)); assumption.
      * apply (Hbefore j); [lia|assumption].
    + intros j d0 Hj Hd0. apply (Hafter j); [lia|assumption].
  - assert (Hmid : (lo + hi) / 2 < hi) by (apply Nat.Div0.div_lt_upper_bound; lia).
    assert (Hlo : lo <= (lo + hi) / 2) by (apply Nat.div_le_lower_bound; lia).
    rewrite ascending_negative in Heq.
    destruct (H Hasc) as (Hr & Hbefore & Hafter); [lia|lia|].
    split_and!; [lia|lia| |].
    + intros j d0 Hj Hd0. apply (Hbefore j); [lia|assumption].
    + intros j d0 Hj Hd0.
      destruct (decide (j < (lo + hi) / 2)) as [Hjm|Hjm].
      * apply (Hafter j); [lia|assumption].
      * apply (js_lt_above (dp_date d)); [|assumption].
        apply (Hasc ((lo + hi) / 2) j); [lia|assumption|assumption].
Qed.

(** Outside an interval, bisection returns its lower bound. *)
Lemma bisect_left_empty_range (a : list DataPoint) (x : number) (lo hi : nat) :
  hi <= lo -> bisect_left a x lo hi = lo.
Proof.
  intros Hle. funelim (bisect_left a x lo hi); try reflexivity; lia.
Qed.

(** ** getNearestDataPoint *)
Section NearestFacts.
Variable scale_invert : ContinuousScale -> Z -> number.

Lemma ascendingAt_valid (a : list DataPoint) (i : nat) (d : DataPoint) :
  ascendingAt a -> a !! i = Some d -> exists t, dp_date d = Num t.
Proof.
  intros Hasc Hd. specialize (Hasc i i d d (le_n i) Hd Hd).
  destruct (dp_date d); [discriminate|eauto].
Qed.

(** With fewer than two entries nothing is found. *)
Lemma getNearestDataPoint_short (c : Chart) (mouseX : Z) :
  length (byDate c) <= 1 -> getNearestDataPoint scale_invert c mouseX = None.
Proof.
  intros Hlen. unfold getNearestDataPoint.
  rewrite bisect_left_empty_range by assumption.
  rewrite (lookup_ge_None_2 (byDate c) 1) by assumption. simpl.
  destruct (byDate c !! 0); reflexivity.
Qed.

(** After the last date nothing is found. *)
Lemma getNearestDataPoint_after_last (c : Chart) (mouseX : Z) (final : DataPoint) :
  isAscending (byDate c) = true ->
  lastEntry (byDate c) = Some final ->
  js_lt (dp_date final) (scale_invert (xScale (scales c)) mouseX) = true ->
  getNearestDataPoint scale_invert c mouseX = None.
Proof.
  intros Hasc Hlast Hlt. apply isAscending_ascendingAt in Hasc.
  unfold lastEntry in Hlast. rewrite last_lookup in Hlast.
  assert (Hlen : 1 <= length (byDate c)).
  { apply lookup_lt_Some in Hlast. lia. }
  unfold getNearestDataPoint.
  set (x := scale_invert (xScale (scales c)) mouseX) in *.
  destruct (bisect_left_insertion (byDate c) x 1 (length (byDate c)) Hasc Hlen
              (le_n _)) as (Hr & _ & Hafter).
  set (i := bisect_left (byDate c) x 1 (length (byDate c))) in *.
  assert (i = length (byDate c)) as ->.
  { destruct (decide (i = length (byDate c))) as [|Hne]; [assumption|].
    rewrite (Hafter (pred (length (byDate c))) final) in Hlt;
      [discriminate|lia|assumption]. }
  rewrite (lookup_ge_None_2 (byDate c) (length (byDate c))) by lia. simpl.
  destruct (byDate c !! (length (byDate c) - 1)); reflexivity.
Qed.

(** At or before the first date of an index of two entries or more, the
    first entry is found. *)
Lemma getNearestDataPoint_before_first (c : Chart) (mouseX : Z)
    (first second : DataPoint) (rest : list DataPoint) :
  isAscending (byDate c) = true ->
  byDate c = first :: second :: rest ->
  js_ge (dp_date first) (scale_invert (xScale (scales c)) mouseX) = true ->
  getNearestDataPoint scale_invert c mouseX = Some (0, first).
Proof.
  intros Hasc Heq Hge. apply isAscending_ascendingAt in Hasc.
  unfold getNearestDataPoint.
  set (x := scale_invert (xScale (scales c)) mouseX) in *.
  assert (Hlen : 1 <= length (byDate c)) by (rewrite Heq; simpl; lia).
  destruct (bisect_left_insertion (byDate c) x 1 (length (byDate c)) Hasc Hlen
              (le_n _)) as (Hr & Hbefore & _).
  set (i := bisect_left (byDate c) x 1 (length (byDate c))) in *.
  pose proof (Hasc 0 1 first second) as H01. rewrite Heq in H01.
  specialize (H01 (le_S _ _ (le_n 0)) eq_refl eq_refl).
  assert (i = 1) as ->.
  { destruct (decide (i = 1)) as [|Hne]; [assumption|].
    specialize (Hbefore 1 second). rewrite Heq in Hbefore.
    specialize (Hbefore ltac:(lia) eq_refl).
    destruct (dp_date first), (dp_date second), x; simpl in *; try discriminate.
    apply Z.leb_le in Hge, H01. apply Z.ltb_lt in Hbefore. lia. }
  rewrite Heq. simpl. unfold findOutNearestDate, js_gt. simpl.
  destruct (dp_date first), (dp_date second), x; simpl in *; try discriminate.
  apply Z.leb_le in Hge, H01.
  destruct (Z.ltb_spec (z - z1) (z1 - z0)); [lia|reflexivity].
Qed.

(** Between two entries, the nearer one is found, the earlier one when
    they are as near. *)
Lemma getNearestDataPoint_between (c : Chart) (mouseX : Z)
    (entry previous : DataPoint) :
  let x := scale_invert (xScale (scales c)) mouseX in
  let i := bisect_left (byDate c) x 1 (length (byDate c)) in
  isAscending (byDate c) = true ->
  byDate c !! i = Some entry ->
  byDate c !! (i - 1) = Some previous ->
  getNearestDataPoint scale_invert c mouseX
  = Some (if js_lt (timeDistance (dp_date entry) x)
                   (timeDistance x (dp_date previous))
          then (i, entry) else (i - 1, previous)).
Proof.
  intros x i Hasc Hentry Hprev. apply isAscending_ascendingAt in Hasc.
  assert (Hlen : 1 <= length (byDate c)).
  { apply lookup_lt_Some in Hprev. lia. }
  destruct (bisect_left_insertion (byDate c) x 1 (length (byDate c)) Hasc Hlen
              (le_n _)) as (Hr & _ & Hafter). fold i in Hr, Hafter.
  pose proof (lookup_lt_Some _ _ _ Hentry) as Hi.
  specialize (Hafter i entry ltac:(lia) Hentry).
  pose proof (Hasc (i - 1) i previous entry ltac:(lia) Hprev Hentry) as Hpe.
  unfold getNearestDataPoint. fold x. fold i. rewrite Hentry, Hprev. simpl.
  unfold findOutNearestDate, js_gt, timeDistance. simpl.
  destruct (dp_date entry) as [|te], (dp_date previous) as [|tp], x as [|x0];
    simpl in *; try discriminate; try reflexivity.
  apply Z.leb_le in Hpe. apply Z.ltb_ge in Hafter.
  destruct (Z.ltb_spec (tp - x0) (x0 - te)), (Z.ltb_spec (Z.abs (te - x0)) (Z.abs (x0 - tp)));
    try reflexivity; lia.
Qed.
End NearestFacts.

Lemma js_lt_irrefl (a : number) : js_lt a a = false.
Proof. destruct a; simpl; [reflexivity|apply Z.ltb_irrefl]. Qed.

Lemma js_lt_asym (a b : number) : js_lt a b = true -> js_lt b a = false.
Proof.
  destruct a, b; simpl; try discriminate.
  rewrite Z.ltb_lt, Z.ltb_ge. lia.
Qed.

(** C2 (amended).  For every by-date index sorted ascending with at least
    two entries and every query position whose inverted date does not lie
    after the last date of the index, there is an entry at the bisection
    insertion index and one immediately before it; the lookup compares the
    two by absolute time distance to the query date and returns the strictly
    closer one; when they are exactly equidistant, the earlier (previous)
    entry is returned.  The insertion index, searched from index 1, is the
    one from which on the entries are not earlier than the query date. *)
Theorem getNearestDataPoint_closer
    (scale_invert : ContinuousScale -> Z -> number)
    (c : Chart) (mouseX : Z) (final : DataPoint) :
  let x := scale_invert (xScale (scales c)) mouseX in
  let i := bisect_left (byDate c) x 1 (length (byDate c)) in
  isAscending (byDate c) = true ->
  2 <= length (byDate c) ->
  lastEntry (byDate c) = Some final ->
  js_lt (dp_date final) x = false ->
  (1 <= i < length (byDate c)
   /\ (forall j d, 1 <= j < i -> byDate c !! j = Some d -> js_lt (dp_date d) x = true)
   /\ (forall j d, i <= j -> byDate c !! j = Some d -> js_lt (dp_date d) x = false))
  /\ CloserOfNeighbours (byDate c) x i (getNearestDataPoint scale_invert c mouseX).
Proof.
  intros x i Hasc Hlen Hlast Hnotafter.
  unfold lastEntry in Hlast. rewrite last_lookup in Hlast.
  destruct (bisect_left_insertion (byDate c) x 1 (length (byDate c))
              (isAscending_ascendingAt _ Hasc) ltac:(lia) (le_n _))
    as (Hr & Hbefore & Hafter).
  fold i in Hr, Hbefore, Hafter.
  assert (Hi : i < length (byDate c)).
  { destruct (decide (i < length (byDate c))) as [|Hn]; [assumption|].
    rewrite (Hbefore (pred (length (byDate c))) final) in Hnotafter;
      [discriminate|lia|assumption]. }
  destruct (lookup_lt_is_Some_2 (byDate c) i Hi) as [entry Hentry].
  destruct (lookup_lt_is_Some_2 (byDate c) (i - 1) ltac:(lia)) as [previous Hprev].
  pose proof (getNearestDataPoint_between scale_invert c mouseX entry previous
                Hasc Hentry Hprev) as Hnear.
  fold x i in Hnear.
  split; [split_and!|].
  - lia.
  - lia.
  - exact Hbefore.
  - intros j d Hj Hd. apply (Hafter j); [|assumption].
    apply lookup_lt_Some in Hd. lia.
  - exists entry, previous. split_and!.
    + lia.
    + assumption.
    + assumption.
    + intros Hlt. rewrite Hnear, Hlt. reflexivity.
    + intros Hlt. rewrite Hnear, (js_lt_asym _ _ Hlt). reflexivity.
    + intros Heq. rewrite Hnear, Heq, js_lt_irrefl. reflexivity.
Qed.

Lemma getNearestDataPoint_closer_witness :
  exists c previous final,
    render defaultConfig (chartData twoTopics) = Return c
    /\ isAscending (byDate c) = true
    /\ 2 <= length (byDate c)
    /\ lastEntry (byDate c) = Some final
    /\ js_lt (dp_date final) (linear_invert (xScale (scales c)) 430) = false
    /\ byDate c !! 0 = Some previous
    /\ linear_invert (xScale (scales c)) 430 = Date_parse_iso "2020-01-01T12:00:00Z"
    /\ getNearestDataPoint linear_invert c 430 = Some (0, previous).
Proof.
  eexists. eexists. eexists. split; [vm_compute; reflexivity|].
  split; [reflexivity|]. split; [simpl; lia|]. split; [reflexivity|].
  split; [reflexivity|]. split; [reflexivity|]. split; [reflexivity|].
  match goal with
  | |- getNearestDataPoint _ ?c _ = _ =>
      destruct (proj2 (getNearestDataPoint_closer linear_invert c 430 _
                         eq_refl ltac:(simpl; lia) eq_refl eq_refl))
        as (entry & previous & _ & Hentry & Hprev & _ & _ & Htie)
  end.
  vm_compute in Hentry, Hprev.
  injection Hentry as <-. injection Hprev as <-.
  apply Htie. reflexivity.
Defined.

(** C2, as stated, fails: a sorted, non-empty index need not have an entry on
    both sides of the query date.  With a single entry, and with two entries
    and a query date after the last one, the lookup returns [undefined]: it
    returns neither of two neighbours. *)
Lemma getNearestDataPoint_no_neighbours :
  (exists c,
     render defaultConfig (chartData oneDate) = Return c
     /\ byDate c <> []
     /\ isAscending (byDate c) = true
     /\ getNearestDataPoint linear_invert c 430 = None
     /\ ~ exists i, CloserOfNeighbours (byDate c)
                      (linear_invert (xScale (scales c)) 430) i
                      (getNearestDataPoint linear_invert c 430))
  /\ (exists c,
        render defaultConfig (chartData twoTopics) = Return c
        /\ byDate c <> []
        /\ isAscending (byDate c) = true
        /\ getNearestDataPoint linear_invert c 870 = None
        /\ ~ exists i, CloserOfNeighbours (byDate c)
                         (linear_invert (xScale (scales c)) 870) i
                         (getNearestDataPoint linear_invert c 870)).
Proof.
  split.
  - eexists. split; [vm_compute; reflexivity|].
    split; [discriminate|]. split; [reflexivity|]. split; [reflexivity|].
    intros (i & entry & previous & Hi & Hentry & _).
    apply lookup_lt_Some in Hentry. simpl in Hentry. lia.
  - eexists. split; [vm_compute; reflexivity|].
    split; [discriminate|]. split; [reflexivity|]. split; [reflexivity|].
    intros (i & entry & previous & Hi & Hentry & Hprev & Hcloser & _).
    assert (i = 1) as ->.
    { apply lookup_lt_Some in Hentry. simpl in Hentry. lia. }
    vm_compute in Hentry, Hprev.
    injection Hentry as <-. injection Hprev as <-.
    specialize (Hcloser eq_refl). discriminate.
Qed.

(** C3 (amended).  A query against a by-date index with fewer than two
    entries, an empty one in particular, returns [undefined].  For a sorted
    index with two entries or more, a query whose inverted date is at or
    before the first date returns the first entry, and a query whose
    inverted date lies after the last date returns [undefined]. *)
Theorem getNearestDataPoint_ends
    (scale_invert : ContinuousScale -> Z -> number) (c : Chart) (mouseX : Z) :
  let x := scale_invert (xScale (scales c)) mouseX in
  (length (byDate c) <= 1 -> getNearestDataPoint scale_invert c mouseX = None)
  /\ (isAscending (byDate c) = true ->
      forall first second rest, byDate c = first :: second :: rest ->
        js_ge (dp_date first) x = true ->
        getNearestDataPoint scale_invert c mouseX = Some (0, first))
  /\ (isAscending (byDate c) = true ->
      forall final, lastEntry (byDate c) = Some final ->
        js_lt (dp_date final) x = true ->
        getNearestDataPoint scale_invert c mouseX = None).
Proof.
  intros x. split_and!.
  - apply getNearestDataPoint_short.
  - intros Hasc first second rest. apply getNearestDataPoint_before_first, Hasc.
  - intros Hasc final. apply getNearestDataPoint_after_last, Hasc.
Qed.

Lemma getNearestDataPoint_ends_witness :
  exists c first,
    render defaultConfig (chartData twoTopics) = Return c
    /\ isAscending (byDate c) = true
    /\ byDate c !! 0 = Some first
    /\ getNearestDataPoint linear_invert c (-40) = Some (0, first)
    /\ getNearestDataPoint linear_invert c 880 = None.
Proof.
  eexists. eexists. split; [vm_compute; reflexivity|].
  split; [reflexivity|]. split; [reflexivity|]. split.
  - refine (proj1 (proj2 (getNearestDataPoint_ends linear_invert _ (-40))) _ _ _ _ _ _);
      reflexivity.
  - refine (proj2 (proj2 (getNearestDataPoint_ends linear_invert _ 880)) _ _ _ _);
      reflexivity.
Defined.

(** C3, as stated, fails: on an index of two entries a query after the last
    date returns [undefined], not the last entry. *)
Lemma getNearestDataPoint_past_end_undefined :
  exists c x,
    render defaultConfig (chartData twoTopics) = Return c
    /\ byDate c <> []
    /\ isAscending (byDate c) = true
    /\ linear_invert (xScale (scales c)) 880 = Num x
    /\ getNearestDataPoint linear_invert c 880 = None
    /\ ~ NearestEndpoint (byDate c) x (getNearestDataPoint linear_invert c 880).
Proof.
  eexists. eexists. split; [vm_compute; reflexivity|].
  split; [discriminate|]. split; [reflexivity|]. split; [reflexivity|].
  split; [reflexivity|].
  intros H. specialize (H _ _ eq_refl eq_refl) as [_ H].
  specialize (H eq_refl). discriminate.
Qed.

(** ** handleMouseMove *)

(** C10.  On a pointer move for which the lookup finds no data point, as with
    an empty by-date index or a cursor that inverts to a date after the last
    entry of a sorted index, [handleMouseMove] leaves the chart as it is: no
    [customMouseMove] event is dispatched, the vertical marker does not move
    and the highlight circles stay.  When a data point is found the marker
    moves to its x position, the circles are redrawn and one event is
    dispatched; so the chart changes only when a data point is found. *)
Theorem handleMouseMove_no_point
    (scale_apply : ContinuousScale -> number -> number)
    (scale_invert : ContinuousScale -> Z -> number)
    (Array_sort : (FlatEntry -> FlatEntry -> number) -> list FlatEntry -> list FlatEntry)
    (StringToNumber : string -> number)
    (c : Chart) (mouseX : Z) :
  let position := (mouseX + - margin_left (margin (config c)))%Z in
  let after := handleMouseMove scale_apply scale_invert Array_sort StringToNumber c mouseX in
  (getNearestDataPoint scale_invert c position = None -> after = c)
  /\ (forall i dataPoint,
        getNearestDataPoint scale_invert c position = Some (i, dataPoint) ->
        let x := scale_apply (xScale (scales c)) (dp_date dataPoint) in
        let sorted := highlightTopics Array_sort (topicColorMap (scales c))
                        (topics dataPoint) in
        verticalMarkerX after = x
        /\ circles after
           = map (fun t =>
                    {| stroke := topicColorMap (scales c) !! name t;
                       translateY := scale_apply (yScale (scales c))
                                       (ToNumber StringToNumber (value t)) |})
                 sorted
        /\ byDate after
           = <[i := {| dp_date := dp_date dataPoint; topics := map Some sorted |}]>
               (byDate c)
        /\ dispatched after
           = dispatched c
             ++ [customMouseMove
                   {| dp_date := dp_date dataPoint; topics := map Some sorted |}
                   (topicColorMap (scales c)) x])
  /\ (after <> c -> is_Some (getNearestDataPoint scale_invert c position))
  /\ (byDate c = [] -> after = c)
  /\ (isAscending (byDate c) = true ->
      forall final, lastEntry (byDate c) = Some final ->
        js_lt (dp_date final) (scale_invert (xScale (scales c)) position) = true ->
        after = c).
Proof.
  intros position after.
  assert (Hnone : getNearestDataPoint scale_invert c position = None -> after = c).
  { intros Hnear. unfold after, handleMouseMove. fold position.
    rewrite Hnear. reflexivity. }
  split_and!.
  - exact Hnone.
  - intros i dataPoint Hnear. unfold after, handleMouseMove. fold position.
    rewrite Hnear. simpl. split_and!; reflexivity.
  - intros Hchanged.
    destruct (getNearestDataPoint scale_invert c position) as [p|] eqn:Hnear;
      [eauto|]. exfalso. apply Hchanged, Hnone. reflexivity.
  - intros Hempty. apply Hnone, getNearestDataPoint_short.
    rewrite Hempty. simpl. lia.
  - intros Hasc final Hlast Hlt. apply Hnone.
    eapply getNearestDataPoint_after_last; eassumption.
Qed.

Lemma handleMouseMove_no_point_witness :
  exists c,
    render defaultConfig (chartData twoTopics) = Return c
    /\ getNearestDataPoint linear_invert c (950 + - 70) = None
    /\ handleMouseMove linear_apply linear_invert insertionSort
         StringToNumber_decimal c 950 = c.
Proof.
  eexists. split; [vm_compute; reflexivity|]. split; [reflexivity|].
  refine (proj1 (handleMouseMove_no_point linear_apply linear_invert insertionSort
                   StringToNumber_decimal _ 950) _).
  reflexivity.
Defined.

(** ** highlightDataPoints *)

(** Falsy slots are dropped, the others are kept in their order. *)
Lemma filterTruthy_elem (ts : list (option FlatEntry)) (t : FlatEntry) :
  t ∈ filterTruthy ts <-> Some t ∈ ts.
Proof.
  unfold filterTruthy. rewrite list_elem_of_omap. split.
  - intros (o & Ho & Heq). simpl in Heq. subst o. assumption.
  - intros Ht. exists (Some t). auto.
Qed.

(** The comparison function never says "before". *)
Lemma highlightCompare_never_negative (colorMap : gmap Z string) (a b : FlatEntry) :
  js_lt (Number_of_bool (highlightCompare colorMap a b)) (Num 0) = false.
Proof. destruct (highlightCompare colorMap a b); reflexivity. Qed.

Section NeverNegative.
Context {A : Type} (comparefn : A -> A -> number).
Hypothesis never_negative : forall a b, js_lt (comparefn a b) (Num 0) = false.

Lemma binarySearch_never_negative (sorted : list A) (pivot : A) (lo hi : nat) :
  lo <= hi -> hi <= length sorted ->
  binarySearch comparefn sorted pivot lo hi = hi.
Proof using never_negative.
  funelim (binarySearch comparefn sorted pivot lo hi); intros Hle Hlen.
  - lia.
  - apply lookup_ge_None in Heq.
    assert ((hi - lo) / 2 < hi - lo) by (apply Nat.Div0.div_lt_upper_bound; lia).
    lia.
  - rewrite never_negative in Heq. discriminate.
  - assert ((hi - lo) / 2 < hi - lo) by (apply Nat.Div0.div_lt_upper_bound; lia).
    apply H; [lia|assumption].
Qed.

(** A binary insertion sort leaves the array as it is when the comparison
    function is never negative. *)
Lemma binaryInsertionSort_never_negative (a : list A) :
  binaryInsertionSort comparefn a = a.
Proof using never_negative.
  unfold binaryInsertionSort.
  assert (Hfold : forall sorted, fold_left (binaryInsert comparefn) a sorted = sorted ++ a).
  { induction a as [|pivot a' IH]; intros sorted; simpl.
    - rewrite app_nil_r. reflexivity.
    - rewrite IH. unfold binaryInsert.
      rewrite binarySearch_never_negative by lia.
      rewrite firstn_all, skipn_all. rewrite <- app_assoc. reflexivity. }
  apply Hfold.
Qed.
End NeverNegative.

(** With such a sort [highlightDataPoints] does not reorder the topics. *)
Lemma highlightTopics_binaryInsertionSort
    (colorMap : gmap Z string) (ts : list (option FlatEntry)) :
  highlightTopics binaryInsertionSort colorMap ts = filterTruthy ts.
Proof.
  unfold highlightTopics. apply binaryInsertionSort_never_negative.
  intros a b. apply highlightCompare_never_negative.
Qed.

(** C9, at a failing input.  Three topics of the default color schema share
    their dates, and the pointer is at the first date.  The comparison function of [highlightDataPoints] answers with a
    boolean: it orders topic 1 after topic 3, and says of topic 3 and topic 1
    that neither comes first.  An insertion sort that tests [> 0] then
    returns the topics by descending color, a binary insertion sort that
    tests [< 0] returns them as they were: the order of the highlighted
    topics is not fixed by their colors. *)
Theorem highlightTopics_order_depends_on_sort :
  exists c dataPoint,
    render defaultConfig (chartData threeTopics) = Return c
    /\ getNearestDataPoint linear_invert c 0 = Some (0, dataPoint)
    /\ highlightCompare (topicColorMap (scales c)) (entryOf "A" 1 1) (entryOf "C" 3 3) = true
    /\ highlightCompare (topicColorMap (scales c)) (entryOf "C" 3 3) (entryOf "A" 1 1) = false
    /\ highlightTopics insertionSort (topicColorMap (scales c)) (topics dataPoint)
       = [entryOf "C" 3 3; entryOf "A" 1 1; entryOf "B" 2 2]
    /\ highlightTopics binaryInsertionSort (topicColorMap (scales c)) (topics dataPoint)
       = [entryOf "A" 1 1; entryOf "B" 2 2; entryOf "C" 3 3].
Proof.
  eexists. eexists. split; [vm_compute; reflexivity|].
  split_and!; reflexivity.
Qed.

(** ** More on cleanData *)

Lemma firstOccurrences_NoDup_id {K : Type} `{EqDecision K} (ks : list K) :
  NoDup ks -> firstOccurrences ks = ks.
Proof.
  induction ks as [|k ks IH] using rev_ind; intros Hnd; [reflexivity|].
  apply NoDup_app in Hnd as (Hks & Hk & _).
  rewrite firstOccurrences_snoc, IH by assumption.
  rewrite decide_False; [reflexivity|].
  intros Hin. apply (Hk k Hin). left.
Qed.

Section Grouping.
Context {A : Type} (key : A -> string).

Lemma groups_cons (v : A) (l : list A) (ks : list string) :
  NoDup ks -> key v ∈ ks ->
  concat (map (fun k => filter (fun v' => key v' = k) (v :: l)) ks)
  ≡ₚ v :: concat (map (fun k => filter (fun v' => key v' = k) l) ks).
Proof.
  induction ks as [|k ks IH]; intros Hnd Hin; [inversion Hin|].
  apply NoDup_cons in Hnd as [Hk Hnd]. simpl.
  destruct (decide (key v = k)) as [Heq|Hne].
  - rewrite filter_cons_True by assumption.
    assert (Hrest : map (fun k0 => filter (fun v' => key v' = k0) (v :: l)) ks
                    = map (fun k0 => filter (fun v' => key v' = k0) l) ks).
    { apply map_ext_in. intros k' Hk'. apply list_elem_of_In in Hk'.
      rewrite filter_cons_False; [reflexivity|]. congruence. }
    rewrite Hrest. reflexivity.
  - rewrite filter_cons_False by assumption.
    rewrite IH; [|assumption|].
    + symmetry. apply Permutation_middle.
    + apply elem_of_cons in Hin as [?|?]; [congruence|assumption].
Qed.

(** The groups of distinct keys that cover a list hold each of its elements
    once. *)
Lemma groups_partition (l : list A) (ks : list string) :
  NoDup ks -> (forall v, v ∈ l -> key v ∈ ks) ->
  concat (map (fun k => filter (fun v => key v = k) l) ks) ≡ₚ l.
Proof.
  intros Hnd. induction l as [|v l IH]; intros Hcover.
  - clear. induction ks as [|k ks IHks]; [reflexivity|exact IHks].
  - rewrite groups_cons; [|assumption|apply Hcover; left].
    f_equiv. apply IH. intros v' Hv'. apply Hcover. right. assumption.
Qed.
End Grouping.

Section MoreCleanData.
Variables Date_parse StringToNumber : string -> number.

Lemma indexedSamples_buckets (flatData : list FlatEntry) (ks : list string) :
  indexedSamples (map (bucket Date_parse flatData) ks)
  = concat (map (fun k => filter (fun f => date f = k) flatData) ks).
Proof.
  unfold indexedSamples. rewrite map_map. f_equal.
  apply map_ext. intros k. apply filterTruthy_Some.
Qed.

Lemma chronological_NoDup (ts : list number) :
  chronological ts = true -> NoDup ts.
Proof.
  assert (Hall : forall ts a, chronological (a :: ts) = true ->
            forall b, b ∈ ts -> js_lt a b = true).
  { clear. induction ts as [|b ts IH]; intros a Ha c Hc; [inversion Hc|].
    change (chronological (a :: b :: ts))
      with (js_ge a a && js_lt a b && chronological (b :: ts)) in Ha.
    rewrite !andb_true_iff in Ha. destruct Ha as [[_ Hab] Hb].
    apply elem_of_cons in Hc as [->|Hc]; [assumption|].
    specialize (IH b Hb c Hc).
    destruct a, b, c; simpl in *; try discriminate.
    rewrite Z.ltb_lt in *. lia. }
  induction ts as [|a ts IH]; intros Hts; constructor.
  - intros Hin. pose proof (Hall ts a Hts a Hin) as Hlt.
    rewrite js_lt_irrefl in Hlt. discriminate.
  - apply IH. simpl in Hts. rewrite !andb_true_iff in Hts. tauto.
Qed.

End MoreCleanData.

(** ** More on buildScales *)

Lemma d3_min_rest_spec (vs : list (option number)) : forall m,
  (d3_min_rest m vs <= m)%Z
  /\ (forall z, Some (Num z) ∈ vs -> (d3_min_rest m vs <= z)%Z)
  /\ (d3_min_rest m vs = m \/ Some (Num (d3_min_rest m vs)) ∈ vs).
Proof.
  induction vs as [|v vs IH]; intros m; simpl.
  - split_and!; [lia| |auto]. intros z Hz. inversion Hz.
  - destruct v as [[|z]|].
    + destruct (IH m) as (H1 & H2 & H3). split_and!; [assumption| |].
      * intros z' Hz'. apply elem_of_cons in Hz' as [?|?]; [discriminate|auto].
      * destruct H3; [auto|right; right; assumption].
    + destruct (IH (if (z <? m)%Z then z else m)) as (H1 & H2 & H3).
      destruct (Z.ltb_spec z m); split_and!; try lia.
      * intros z' Hz'. apply elem_of_cons in Hz' as [Hz'|?]; [|auto].
        injection Hz' as ->. assumption.
      * destruct H3 as [->|?]; right; [left|right; assumption].
      * intros z' Hz'. apply elem_of_cons in Hz' as [Hz'|?]; [|auto].
        injection Hz' as ->. lia.
      * destruct H3 as [->|?]; [auto|right; right; assumption].
    + destruct (IH m) as (H1 & H2 & H3). split_and!; [assumption| |].
      * intros z' Hz'. apply elem_of_cons in Hz' as [?|?]; [discriminate|auto].
      * destruct H3; [auto|right; right; assumption].
Qed.

(** [d3Array.min] returns a least comparable value. *)
Lemma d3_min_values_Some (vs : list (option number)) (r : number) :
  d3_min_values vs = Some r ->
  exists z, r = Num z /\ Some (Num z) ∈ vs
    /\ forall z', Some (Num z') ∈ vs -> (z <= z')%Z.
Proof.
  induction vs as [|v vs IH]; simpl; [discriminate|].
  destruct v as [[|z]|].
  - intros H. destruct (IH H) as (z & -> & Hin & Hmin).
    exists z. split_and!; [reflexivity|right; assumption|].
    intros z' Hz'. apply elem_of_cons in Hz' as [?|?]; [discriminate|auto].
  - intros [= <-]. destruct (d3_min_rest_spec vs z) as (H1 & H2 & H3).
    eexists. split_and!; [reflexivity| |].
    + destruct H3 as [->|?]; [left|right; assumption].
    + intros z' Hz'. apply elem_of_cons in Hz' as [Hz'|?]; [|auto].
      injection Hz' as ->. assumption.
  - intros H. destruct (IH H) as (z & -> & Hin & Hmin).
    exists z. split_and!; [reflexivity|right; assumption|].
    intros z' Hz'. apply elem_of_cons in Hz' as [?|?]; [discriminate|auto].
Qed.

Lemma d3_min_values_defined (vs : list (option number)) (z : Z) :
  Some (Num z) ∈ vs -> exists r, d3_min_values vs = Some (Num r).
Proof.
  induction vs as [|v vs IH]; intros Hin; [inversion Hin|].
  simpl. destruct v as [[|z']|]; eauto;
    apply elem_of_cons in Hin as [?|?]; try discriminate; auto.
Qed.

Section Extrema.
Variable proj : Sample -> number.
Let get (s : Sample) : option number := Some (proj s).

Lemma elem_of_projections (t : Topic) (z : Z) :
  Some (Num z) ∈ map get (dates t) <-> exists s, s ∈ dates t /\ proj s = Num z.
Proof.
  rewrite list_elem_of_In, in_map_iff. unfold get. split.
  - intros (s & [= Hs] & Hin). apply list_elem_of_In in Hin. eauto.
  - intros (s & Hin & Hs). exists s. rewrite <- list_elem_of_In.
    split; [congruence|assumption].
Qed.

(** The nested [d3Array.max] over topics and samples is the greatest value. *)
Lemma d3_max_nested (byTopic : list Topic) (m : Z) :
  isGreatestOf proj m byTopic ->
  d3_max byTopic (fun t => d3_max (dates t) get) = Some (Num m).
Proof.
  intros [(t0 & s0 & Ht0 & Hs0 & Hv0) Hmax]. unfold d3_max.
  assert (Hinner : forall t r, t ∈ byTopic ->
            d3_max_values (map get (dates t)) = Some (Num r) -> (r <= m)%Z).
  { intros t r Ht Hr. apply d3_max_values_Some in Hr as (z & [= <-] & Hin & _).
    apply elem_of_projections in Hin as (s & Hs & Hz). eauto. }
  assert (H0 : d3_max_values (map get (dates t0)) = Some (Num m)).
  { assert (Hin0 : Some (Num m) ∈ map get (dates t0))
      by (apply elem_of_projections; eauto).
    destruct (d3_max_values_defined _ m Hin0) as [r Hr].
    pose proof (Hinner _ _ Ht0 Hr).
    apply d3_max_values_Some in Hr as Hr'. destruct Hr' as (z & [= <-] & _ & Hge).
    pose proof (Hge _ Hin0). rewrite Hr. do 2 f_equal. lia. }
  set (outer := map (fun t => d3_max_values (map get (dates t))) byTopic).
  assert (Hm : Some (Num m) ∈ outer).
  { apply list_elem_of_In, in_map_iff. exists t0.
    rewrite <- list_elem_of_In. auto. }
  destruct (d3_max_values_defined outer m Hm) as [r Hr].
  apply d3_max_values_Some in Hr as Hr'. destruct Hr' as (z & [= <-] & Hin & Hge).
  apply list_elem_of_In, in_map_iff in Hin as (t & Ht & Hin).
  apply list_elem_of_In in Hin.
  pose proof (Hinner _ _ Hin Ht). pose proof (Hge _ Hm).
  rewrite Hr. do 2 f_equal. lia.
Qed.

(** The nested [d3Array.min] is the least value. *)
Lemma d3_min_nested (byTopic : list Topic) (m : Z) :
  isLeastOf proj m byTopic ->
  d3_min byTopic (fun t => d3_min (dates t) get) = Some (Num m).
Proof.
  intros [(t0 & s0 & Ht0 & Hs0 & Hv0) Hmin]. unfold d3_min.
  assert (Hinner : forall t r, t ∈ byTopic ->
            d3_min_values (map get (dates t)) = Some (Num r) -> (m <= r)%Z).
  { intros t r Ht Hr. apply d3_min_values_Some in Hr as (z & [= <-] & Hin & _).
    apply elem_of_projections in Hin as (s & Hs & Hz). eauto. }
  assert (H0 : d3_min_values (map get (dates t0)) = Some (Num m)).
  { assert (Hin0 : Some (Num m) ∈ map get (dates t0))
      by (apply elem_of_projections; eauto).
    destruct (d3_min_values_defined _ m Hin0) as [r Hr].
    pose proof (Hinner _ _ Ht0 Hr).
    apply d3_min_values_Some in Hr as Hr'. destruct Hr' as (z & [= <-] & _ & Hle).
    pose proof (Hle _ Hin0). rewrite Hr. do 2 f_equal. lia. }
  set (outer := map (fun t => d3_min_values (map get (dates t))) byTopic).
  assert (Hm : Some (Num m) ∈ outer).
  { apply list_elem_of_In, in_map_iff. exists t0.
    rewrite <- list_elem_of_In. auto. }
  destruct (d3_min_values_defined outer m Hm) as [r Hr].
  apply d3_min_values_Some in Hr as Hr'. destruct Hr' as (z & [= <-] & Hin & Hle).
  apply list_elem_of_In, in_map_iff in Hin as (t & Ht & Hin).
  apply list_elem_of_In in Hin.
  pose proof (Hinner _ _ Hin Ht). pose proof (Hle _ Hm).
  rewrite Hr. do 2 f_equal. lia.
Qed.
End Extrema.

(** X1.  The time scale runs from the least to the greatest sample date of all
    topics, over the width of the chart. *)
Theorem buildScales_xScale_domain
    (d3_nice : number * number -> number * number)
    (cfg : Config) (byTopic : list Topic) (first final : Z) :
  isLeastOf s_date first byTopic ->
  isGreatestOf s_date final byTopic ->
  exists scales,
    buildScales d3_nice cfg (Some byTopic) = Return scales
    /\ xScale scales
       = {| domain := (Num first, Num final); range := (0%Z, chartWidth cfg) |}.
Proof.
  intros Hfirst Hfinal. eexists. split; [reflexivity|]. simpl.
  rewrite (d3_min_nested s_date byTopic first Hfirst
           : minX byTopic = Some (Num first)).
  rewrite (d3_max_nested s_date byTopic final Hfinal
           : maxX byTopic = Some (Num final)).
  reflexivity.
Qed.

Lemma buildScales_xScale_domain_witness :
  isLeastOf s_date 1577836800000 belowZero
  /\ isGreatestOf s_date 1577923200000 belowZero
  /\ exists scales,
       buildScales nice_id defaultConfig (Some belowZero) = Return scales
       /\ xScale scales
          = {| domain := (Num 1577836800000, Num 1577923200000);
               range := (0%Z, 860%Z) |}.
Proof.
  assert (Hleast : isLeastOf s_date 1577836800000 belowZero).
  { split.
    - eexists _, _. split_and!; [left|left|reflexivity].
    - intros t s v Ht Hs Hv.
      apply list_elem_of_singleton in Ht as ->. simpl in Hs.
      repeat (apply elem_of_cons in Hs as [->|Hs]); [| |inversion Hs];
        simpl in Hv; injection Hv as <-; lia. }
  assert (Hgreatest : isGreatestOf s_date 1577923200000 belowZero).
  { split.
    - eexists _, _. split_and!; [left|right; left|reflexivity].
    - intros t s v Ht Hs Hv.
      apply list_elem_of_singleton in Ht as ->. simpl in Hs.
      repeat (apply elem_of_cons in Hs as [->|Hs]); [| |inversion Hs];
        simpl in Hv; injection Hv as <-; lia. }
  split_and!; [exact Hleast|exact Hgreatest|].
  exact (buildScales_xScale_domain nice_id defaultConfig belowZero _ _
           Hleast Hgreatest).
Defined.

Lemma chronological_ascending (index : list DataPoint) :
  chronological (map dp_date index) = isAscending index && strictlyAscending index.
Proof.
  induction index as [|a index IH]; [reflexivity|].
  change (chronological (map dp_date (a :: index)))
    with (js_ge (dp_date a) (dp_date a)
          && match map dp_date index with
             | b :: _ => js_lt (dp_date a) b
             | [] => true
             end
          && chronological (map dp_date index)).
  rewrite IH. destruct index as [|b index];
    [simpl; rewrite !andb_true_r; reflexivity|].
  change (isAscending (a :: b :: index))
    with (js_ge (dp_date a) (dp_date a) && js_ge (dp_date b) (dp_date a)
          && isAscending (b :: index)).
  change (strictlyAscending (a :: b :: index))
    with (js_lt (dp_date a) (dp_date b) && strictlyAscending (b :: index)).
  simpl map.
  assert (Hlt : js_lt (dp_date a) (dp_date b) = true ->
                js_ge (dp_date b) (dp_date a) = true).
  { destruct (dp_date a), (dp_date b); simpl; try discriminate.
    rewrite Z.ltb_lt, Z.leb_le. lia. }
  destruct (js_lt (dp_date a) (dp_date b)).
  - rewrite (Hlt eq_refl).
    destruct (js_ge (dp_date a) (dp_date a)), (isAscending (b :: index)),
      (strictlyAscending (b :: index)); reflexivity.
  - destruct (js_ge (dp_date a) (dp_date a)), (js_ge (dp_date b) (dp_date a)),
      (isAscending (b :: index)), (strictlyAscending (b :: index)); reflexivity.
Qed.

Lemma flatten_length (raw : list RawTopic) :
  length (flatten raw) = length (flat_map raw_dates raw).
Proof.
  unfold flatten. induction raw as [|t raw' IH]; [reflexivity|].
  simpl. rewrite !length_app, length_map, IH. reflexivity.
Qed.

(** X2.  The topic lists of the by-date index hold every sample of every topic
    exactly once: read entry after entry, they are a rearrangement of the
    flattened samples, whatever the dates and values are. *)
Theorem cleanData_byDate_partition
    (Date_parse StringToNumber : string -> number)
    (raw : list RawTopic) (d : option (list DataPoint)) :
  exists index,
    dataByDate (cleanData Date_parse StringToNumber
                  {| in_dataByTopic := Some raw; in_dataByDate := d |})
    = Some index
    /\ indexedSamples index ≡ₚ flatten raw
    /\ length (indexedSamples index) = length (flat_map raw_dates raw).
Proof.
  eexists. split; [apply cleanData_dataByDate|].
  assert (Hperm : indexedSamples
                    (map (bucket Date_parse (flatten raw))
                         (firstOccurrences (rawDates raw))) ≡ₚ flatten raw).
  { rewrite indexedSamples_buckets. apply groups_partition.
    - apply firstOccurrences_NoDup.
    - intros f Hf. apply firstOccurrences_elem.
      apply list_elem_of_In, in_map, list_elem_of_In, Hf. }
  split; [exact Hperm|].
  rewrite (Permutation_length Hperm). apply flatten_length.
Qed.

(** X3.  Every entry of the by-date index has at least one topic, none of its
    slots is empty, and each of its topics is a sample of the dataset whose
    date string parses to the date of the entry. *)
Theorem cleanData_byDate_entries
    (Date_parse StringToNumber : string -> number)
    (raw : list RawTopic) (d : option (list DataPoint)) :
  exists index,
    dataByDate (cleanData Date_parse StringToNumber
                  {| in_dataByTopic := Some raw; in_dataByDate := d |})
    = Some index
    /\ forall i e, index !! i = Some e ->
         topics e <> []
         /\ forall o, o ∈ topics e ->
              exists f, o = Some f /\ f ∈ flatten raw
                /\ Date_parse (date f) = dp_date e.
Proof.
  eexists. split; [apply cleanData_dataByDate|].
  intros i e He. rewrite map_lookup in He.
  destruct (firstOccurrences (rawDates raw) !! i) as [k|] eqn:Hk; [|discriminate].
  injection He as <-. simpl. split.
  - apply list_elem_of_lookup_2 in Hk.
    apply (proj1 (firstOccurrences_elem _ _)) in Hk.
    apply list_elem_of_In, in_map_iff in Hk as (f & Hdate & Hf).
    apply list_elem_of_In in Hf.
    assert (Hin : f ∈ filter (fun f0 => date f0 = k) (flatten raw))
      by (apply list_elem_of_filter; auto).
    destruct (filter _ _); [inversion Hin|discriminate].
  - intros o Ho. apply list_elem_of_In, in_map_iff in Ho as (f & <- & Hf).
    apply list_elem_of_In, list_elem_of_filter in Hf as [<- Hf]. eauto.
Qed.

(** X4.  The by-date index is sorted (dates valid and strictly ascending) exactly
    when the distinct date strings, in the order in which they first occur,
    are in chronological order; a dataset whose flattened samples are in
    chronological order gets one entry per sample, in that order. *)
Theorem cleanData_byDate_sorted_iff
    (Date_parse StringToNumber : string -> number)
    (raw : list RawTopic) (d : option (list DataPoint)) :
  exists index,
    dataByDate (cleanData Date_parse StringToNumber
                  {| in_dataByTopic := Some raw; in_dataByDate := d |})
    = Some index
    /\ (isAscending index = true /\ strictlyAscending index = true <->
        chronological (map Date_parse (firstOccurrences (rawDates raw))) = true)
    /\ (chronological (map Date_parse (rawDates raw)) = true ->
        map dp_date index = map Date_parse (rawDates raw)
        /\ isAscending index = true).
Proof.
  eexists. split; [apply cleanData_dataByDate|].
  set (index := map (bucket Date_parse (flatten raw))
                    (firstOccurrences (rawDates raw))).
  assert (Hdates : map dp_date index
                   = map Date_parse (firstOccurrences (rawDates raw)))
    by (unfold index; rewrite map_map; reflexivity).
  split.
  - rewrite <- Hdates, chronological_ascending, andb_true_iff. reflexivity.
  - intros Hchron.
    assert (Hnd : NoDup (rawDates raw)).
    { apply chronological_NoDup in Hchron.
      apply (NoDup_fmap_1 Date_parse). exact Hchron. }
    rewrite (firstOccurrences_NoDup_id _ Hnd) in Hdates.
    split; [exact Hdates|].
    rewrite <- Hdates, chronological_ascending, andb_true_iff in Hchron. tauto.
Qed.

(** ** Colors *)

Lemma buildTopicColorMap_snoc (dom : list Z) (t : Z) (rng : list string) :
  buildTopicColorMap (dom ++ [t]) rng
  = match rng !! length dom with
    | Some c => <[t := c]> (buildTopicColorMap dom rng)
    | None => buildTopicColorMap dom rng
    end.
Proof.
  unfold buildTopicColorMap. rewrite imap_app, fold_left_app. simpl.
  rewrite Nat.add_0_r. reflexivity.
Qed.

Lemma buildTopicColorMap_absent (dom : list Z) (rng : list string) (t : Z) :
  t ∉ dom -> buildTopicColorMap dom rng !! t = None.
Proof.
  induction dom as [|t' dom IH] using rev_ind; intros Hin; [apply lookup_empty|].
  apply not_elem_of_app in Hin as [Hdom Ht'].
  rewrite buildTopicColorMap_snoc.
  destruct (rng !! length dom); [|auto].
  rewrite lookup_insert_ne; [auto|].
  intros ->. apply Ht'. left.
Qed.

(** The topic at index [i] of a domain without repetition gets the color at
    index [i] of the schema, none when the schema is shorter. *)
Lemma buildTopicColorMap_lookup (dom : list Z) (rng : list string) (i : nat) (t : Z) :
  NoDup dom -> dom !! i = Some t -> buildTopicColorMap dom rng !! t = rng !! i.
Proof.
  revert i. induction dom as [|t' dom IH] using rev_ind; intros i Hnd Hi;
    [discriminate|].
  apply NoDup_app in Hnd as (Hdom & Hdisj & _).
  rewrite buildTopicColorMap_snoc.
  destruct (decide (i < length dom)) as [Hlt|Hge].
  - rewrite lookup_app_l in Hi by assumption.
    assert (t <> t').
    { intros ->. apply (Hdisj t'); [eapply list_elem_of_lookup_2; eassumption|left]. }
    destruct (rng !! length dom); [rewrite lookup_insert_ne by congruence|];
      apply IH; assumption.
  - assert (i = length dom) as ->.
    { apply lookup_lt_Some in Hi. rewrite length_app in Hi. simpl in Hi. lia. }
    rewrite list_lookup_middle in Hi by reflexivity. injection Hi as ->.
    destruct (rng !! length dom) eqn:Hc.
    + apply lookup_insert_eq.
    + apply buildTopicColorMap_absent. intros Hin. apply (Hdisj t Hin). left.
Qed.

Lemma ordinal_domain_NoDup (ds : list Z) : NoDup (ordinal_domain ds).
Proof. exact (firstOccurrences_NoDup ds). Qed.

Lemma ordinal_domain_elem (ds : list Z) (d : Z) : d ∈ ordinal_domain ds <-> d ∈ ds.
Proof. exact (firstOccurrences_elem ds d). Qed.

Lemma list_find_NoDup (dom : list Z) (i : nat) (t : Z) :
  NoDup dom -> dom !! i = Some t ->
  list_find (fun d' => d' = t) dom = Some (i, t).
Proof.
  intros Hnd Hi. apply list_find_Some. split_and!; [assumption|reflexivity|].
  intros j y Hj Hlt ->.
  pose proof (NoDup_lookup _ _ _ _ Hnd Hi Hj). lia.
Qed.

(** The number of first occurrences is the number of distinct elements. *)
Lemma firstOccurrences_size (ks : list Z) :
  length (firstOccurrences ks) = size (list_to_set ks : gset Z).
Proof.
  induction ks as [|k ks IH] using rev_ind; [reflexivity|].
  rewrite firstOccurrences_snoc, list_to_set_app_L. simpl.
  rewrite (right_id_L ∅ (∪)).
  case_decide as Hin.
  - rewrite IH. f_equal. apply (proj1 (firstOccurrences_elem _ _)) in Hin.
    apply set_eq. intros y. rewrite elem_of_union, elem_of_singleton, elem_of_list_to_set.
    split; [tauto|]. intros [H| ->]; assumption.
  - rewrite length_app, IH. simpl.
    rewrite size_union, size_singleton; [lia|].
    intros y Hy Hy'. apply elem_of_singleton in Hy' as ->.
    apply Hin, firstOccurrences_elem. apply elem_of_list_to_set in Hy. exact Hy.
Qed.

(** The first element equal to [k] is listed after the distinct elements
    before it. *)
Lemma firstOccurrences_position {K : Type} `{EqDecision K} (ks : list K) (j : nat) (k : K) :
  ks !! j = Some k ->
  (forall j' k', j' < j -> ks !! j' = Some k' -> k' <> k) ->
  firstOccurrences ks !! length (firstOccurrences (take j ks)) = Some k.
Proof.
  intros Hj Hfirst.
  assert (Hks : firstOccurrences ks
                = fold_left (fun seen k => if decide (k ∈ seen) then seen else seen ++ [k])
                    (k :: drop (S j) ks) (firstOccurrences (take j ks))).
  { rewrite <- (take_drop_middle ks j k Hj) at 1.
    unfold firstOccurrences. rewrite fold_left_app. reflexivity. }
  rewrite Hks. simpl.
  assert (Hnot : k ∉ firstOccurrences (take j ks)).
  { rewrite firstOccurrences_elem. intros Hin.
    apply list_elem_of_lookup in Hin as [j' Hj'].
    pose proof (lookup_lt_Some _ _ _ Hj') as Hlt. rewrite length_take in Hlt.
    rewrite lookup_take_lt in Hj' by lia.
    apply (Hfirst j' k); [lia|assumption|reflexivity]. }
  rewrite decide_False by assumption.
  rewrite firstOccurrences_from.
  rewrite <- app_assoc. simpl. apply list_lookup_middle. reflexivity.
Qed.

(** An element of a list has a first occurrence. *)
Lemma first_occurrence_exists {K : Type} `{EqDecision K} (ks : list K) (j : nat) (k : K) :
  ks !! j = Some k ->
  exists j0, j0 <= j /\ ks !! j0 = Some k
             /\ forall j' k', j' < j0 -> ks !! j' = Some k' -> k' <> k.
Proof.
  induction j as [j IH] using lt_wf_ind. intros Hj.
  destruct (list_find (fun k' => k' = k) (take j ks)) as [[j1 k1]|] eqn:Hfind.
  - apply list_find_Some in Hfind as (Hj1 & -> & _).
    pose proof (lookup_lt_Some _ _ _ Hj1) as Hlt. rewrite length_take in Hlt.
    rewrite lookup_take_lt in Hj1 by lia.
    destruct (IH j1 ltac:(lia) Hj1) as (j0 & Hle & Hj0 & Hfirst).
    exists j0. split; [lia|]. split; assumption.
  - exists j. split; [lia|]. split; [assumption|].
    intros j' k' Hlt Hj' ->.
    apply list_find_None in Hfind.
    rewrite Forall_forall in Hfind. apply (Hfind k); [|reflexivity].
    apply (list_elem_of_lookup_2 _ j'). rewrite lookup_take_lt by lia. assumption.
Qed.

Lemma topic_first_occurrence (byTopic : list Topic) (j : nat) (topic : Topic) :
  byTopic !! j = Some topic ->
  exists j0 first,
    j0 <= j /\ firstOfTopic byTopic j0 first /\ t_topic first = t_topic topic.
Proof.
  intros Hj.
  assert (Hid : map t_topic byTopic !! j = Some (t_topic topic)).
  { rewrite map_lookup, Hj. reflexivity. }
  destruct (first_occurrence_exists _ _ _ Hid) as (j0 & Hle & Hj0 & Hfirst).
  rewrite map_lookup in Hj0.
  destruct (byTopic !! j0) as [first|] eqn:Hfst; [|discriminate].
  injection Hj0 as Hsame.
  exists j0, first. split; [assumption|]. split; [|assumption].
  split; [exact Hfst|].
  intros j' topic' Hlt Hj'. rewrite Hsame. apply (Hfirst j'); [assumption|].
  rewrite map_lookup, Hj'. reflexivity.
Qed.

(** The identifier of the first topic with it has, in the domain of the color
    scale, the position given by the number of distinct identifiers before
    it. *)
Lemma ordinal_domain_position (byTopic : list Topic) (j : nat) (topic : Topic) :
  firstOfTopic byTopic j topic ->
  ordinal_domain (map getTopic byTopic) !! distinctBefore byTopic j
  = Some (t_topic topic).
Proof.
  intros [Hj Hfirst]. unfold distinctBefore.
  rewrite <- firstOccurrences_size.
  change (map t_topic (take j byTopic)) with (t_topic <$> take j byTopic).
  rewrite fmap_take.
  apply (firstOccurrences_position (t_topic <$> byTopic) j (t_topic topic)).
  - rewrite list_lookup_fmap, Hj. reflexivity.
  - intros j' k' Hlt Hj'. rewrite list_lookup_fmap in Hj'.
    destruct (byTopic !! j') as [topic'|] eqn:Ht'; [|discriminate].
    injection Hj' as <-. apply (Hfirst j'); assumption.
Qed.

(** Without repeated identifiers every topic is the first with its own, and
    as many distinct identifiers come before it as topics. *)
Lemma distinctBefore_NoDup (byTopic : list Topic) (j : nat) (topic : Topic) :
  NoDup (map t_topic byTopic) -> byTopic !! j = Some topic ->
  firstOfTopic byTopic j topic /\ distinctBefore byTopic j = j.
Proof.
  intros Hnd Hj. split.
  - split; [assumption|]. intros j' topic' Hlt Hj' Hsame.
    assert (j' = j); [|lia].
    apply (NoDup_lookup _ j' j (t_topic topic) Hnd).
    + rewrite map_lookup, Hj'. simpl. rewrite Hsame. reflexivity.
    + rewrite map_lookup, Hj. reflexivity.
  - unfold distinctBefore. rewrite <- firstOccurrences_size.
    change (map t_topic (take j byTopic)) with (t_topic <$> take j byTopic).
    rewrite fmap_take, firstOccurrences_NoDup_id.
    + rewrite length_take, length_fmap. apply lookup_lt_Some in Hj. lia.
    + change (NoDup (t_topic <$> byTopic)) in Hnd.
      rewrite <- (take_drop j (t_topic <$> byTopic)) in Hnd.
      apply NoDup_app in Hnd as [Htake _]. exact Htake.
Qed.

(** X5.  [buildScales] gives each distinct topic identifier, in the order of
    first occurrence among the topics, the color at the same position of the
    color schema: the first topic with an identifier has in the domain of
    the color scale the position counted by the distinct identifiers before
    it, and in [topicColorMap] the color of the schema at that position.
    When no identifier is repeated the domain is the list of the topics'
    identifiers and topic [j] has color [j].  [topicColorMap] does not cycle:
    a topic whose position is beyond the schema has no color in it, and
    neither has an identifier that is not a topic of the dataset. *)
Theorem buildScales_topicColorMap
    (d3_nice : number * number -> number * number)
    (cfg : Config) (byTopic : list Topic) :
  exists scales,
    buildScales d3_nice cfg (Some byTopic) = Return scales
    /\ NoDup (colorScale_domain scales)
    /\ (forall t, t ∈ colorScale_domain scales <->
          exists topic, topic ∈ byTopic /\ t_topic topic = t)
    /\ (forall j topic, firstOfTopic byTopic j topic ->
          colorScale_domain scales !! distinctBefore byTopic j = Some (t_topic topic)
          /\ topicColorMap scales !! t_topic topic
             = colorSchema cfg !! distinctBefore byTopic j)
    /\ (NoDup (map t_topic byTopic) ->
        colorScale_domain scales = map t_topic byTopic
        /\ forall j topic, byTopic !! j = Some topic ->
             topicColorMap scales !! t_topic topic = colorSchema cfg !! j)
    /\ (forall i t, colorScale_domain scales !! i = Some t ->
          topicColorMap scales !! t = colorSchema cfg !! i)
    /\ (forall i t, colorScale_domain scales !! i = Some t ->
          length (colorSchema cfg) <= i -> topicColorMap scales !! t = None)
    /\ (forall t, t ∉ colorScale_domain scales -> topicColorMap scales !! t = None).
Proof.
  eexists. split; [reflexivity|]. simpl. split_and!.
  - apply ordinal_domain_NoDup.
  - intros t. rewrite ordinal_domain_elem, list_elem_of_In, in_map_iff.
    split; intros (topic & H1 & H2); exists topic;
      [rewrite list_elem_of_In|rewrite <- list_elem_of_In]; auto.
  - intros j topic Hfirst.
    pose proof (ordinal_domain_position byTopic j topic Hfirst) as Hpos.
    split; [exact Hpos|].
    apply buildTopicColorMap_lookup; [apply ordinal_domain_NoDup|exact Hpos].
  - intros Hnd. split; [apply (firstOccurrences_NoDup_id _ Hnd)|].
    intros j topic Hj.
    destruct (distinctBefore_NoDup byTopic j topic Hnd Hj) as [Hfirst Hcount].
    pose proof (ordinal_domain_position byTopic j topic Hfirst) as Hpos.
    rewrite Hcount in Hpos.
    apply buildTopicColorMap_lookup; [apply ordinal_domain_NoDup|exact Hpos].
  - intros i t. apply buildTopicColorMap_lookup, ordinal_domain_NoDup.
  - intros i t Hi Hlen.
    rewrite (buildTopicColorMap_lookup _ _ i t (ordinal_domain_NoDup _) Hi).
    apply lookup_ge_None_2. assumption.
  - intros t. apply buildTopicColorMap_absent.
Qed.

(** X6.  [drawLines] appends one path for each topic.  The line of a single
    topic is stroked with the gradient.  With several topics every topic has
    a position [i] among the distinct identifiers, the number of distinct
    identifiers before the first topic with its identifier, and its line is
    stroked with the color [i mod n] of a schema of [n] colors: the same
    color as in [topicColorMap] while [i < n], but a color of the schema
    again from [n] on, where [topicColorMap] has none.  When no identifier
    is repeated the line of topic [j] has color [j mod n]. *)
Theorem drawLines_strokes_colors
    (d3_nice : number * number -> number * number)
    (cfg : Config) (byTopic : list Topic) :
  exists scales,
    buildScales d3_nice cfg (Some byTopic) = Return scales
    /\ length (drawLines_strokes scales byTopic) = length byTopic
    /\ (length byTopic = 1 -> drawLines_strokes scales byTopic = [GradientUrl])
    /\ (length byTopic <> 1 ->
        forall j topic, byTopic !! j = Some topic ->
          exists j0 first,
            j0 <= j /\ firstOfTopic byTopic j0 first
            /\ t_topic first = t_topic topic
            /\ let i := distinctBefore byTopic j0 in
               let n := length (colorSchema cfg) in
               drawLines_strokes scales byTopic !! j
               = Some (StrokeColor (colorSchema cfg !! (i mod n)))
               /\ (i < n -> colorSchema cfg !! (i mod n)
                            = topicColorMap scales !! t_topic topic)
               /\ (n <= i -> 0 < n ->
                   is_Some (colorSchema cfg !! (i mod n))
                   /\ topicColorMap scales !! t_topic topic = None))
    /\ (length byTopic <> 1 -> NoDup (map t_topic byTopic) ->
        forall j topic, byTopic !! j = Some topic ->
          drawLines_strokes scales byTopic !! j
          = Some (StrokeColor (colorSchema cfg !! (j mod length (colorSchema cfg))))).
Proof.
  eexists. split; [reflexivity|].
  set (scales := {| xScale := _ |}).
  assert (Hnd : NoDup (colorScale_domain scales)) by apply ordinal_domain_NoDup.
  assert (Hstroke : length byTopic <> 1 ->
            forall j topic i, byTopic !! j = Some topic ->
              colorScale_domain scales !! i = Some (t_topic topic) ->
              drawLines_strokes scales byTopic !! j
              = Some (StrokeColor (colorSchema cfg !! (i mod length (colorSchema cfg))))).
  { intros Hlen j topic i Hj Hi.
    unfold drawLines_strokes. rewrite map_lookup, Hj. simpl.
    apply Nat.eqb_neq in Hlen. rewrite Hlen.
    unfold getLineColor, colorScale.
    rewrite (list_find_NoDup _ i _ Hnd Hi). reflexivity. }
  split_and!.
  - unfold drawLines_strokes. apply length_map.
  - intros Hlen. unfold drawLines_strokes. rewrite Hlen.
    destruct byTopic as [|topic [|? ?]]; try discriminate. reflexivity.
  - intros Hlen j topic Hj.
    destruct (topic_first_occurrence byTopic j topic Hj)
      as (j0 & first & Hle & Hfirst & Hsame).
    exists j0, first. split_and!; [assumption|assumption|assumption|].
    pose proof (ordinal_domain_position byTopic j0 first Hfirst) as Hpos.
    rewrite Hsame in Hpos.
    assert (Hmap : topicColorMap scales !! t_topic topic
                   = colorSchema cfg !! distinctBefore byTopic j0)
      by (apply buildTopicColorMap_lookup; assumption).
    intros i n. split_and!.
    + apply (Hstroke Hlen j topic); assumption.
    + intros Hlt. rewrite Nat.mod_small by assumption. symmetry. exact Hmap.
    + intros Hge Hpos'. split.
      * apply lookup_lt_is_Some. apply Nat.mod_upper_bound. lia.
      * rewrite Hmap. apply lookup_ge_None_2. assumption.
  - intros Hlen Hdistinct j topic Hj.
    destruct (distinctBefore_NoDup byTopic j topic Hdistinct Hj) as [Hfirst Hcount].
    pose proof (ordinal_domain_position byTopic j topic Hfirst) as Hpos.
    rewrite Hcount in Hpos.
    apply (Hstroke Hlen j topic); assumption.
Qed.

(** ** More on the lookup *)

Lemma bisect_left_lower (a : list DataPoint) (x : number) (lo hi : nat) :
  lo <= bisect_left a x lo hi.
Proof.
  funelim (bisect_left a x lo hi); try lia.
  assert (lo <= (lo + hi) / 2) by (apply Nat.div_le_lower_bound; lia). lia.
Qed.

Section MoreNearest.
Variable scale_invert : ContinuousScale -> Z -> number.

(** The lookup returns an entry together with its place in the index. *)
Lemma getNearestDataPoint_lookup (c : Chart) (mouseX : Z)
    (k : nat) (found : DataPoint) :
  getNearestDataPoint scale_invert c mouseX = Some (k, found) ->
  byDate c !! k = Some found.
Proof.
  unfold getNearestDataPoint.
  destruct (byDate c !! bisect_left _ _ _ _) as [e|] eqn:He; simpl.
  - destruct (byDate c !! (_ - 1)) as [p|] eqn:Hp; simpl.
    + unfold findOutNearestDate. destruct (js_gt _ _); intros [= <- <-]; assumption.
    + intros [= <- <-]. assumption.
  - destruct (byDate c !! (_ - 1)); discriminate.
Qed.

(** X7.  Whatever the index and the position, an entry that the lookup returns is
    the entry of the index at the position it is returned with, and the index
    has two entries at least. *)
Theorem getNearestDataPoint_in_index (c : Chart) (mouseX : Z)
    (k : nat) (found : DataPoint) :
  getNearestDataPoint scale_invert c mouseX = Some (k, found) ->
  byDate c !! k = Some found /\ 2 <= length (byDate c).
Proof.
  unfold getNearestDataPoint.
  set (x := scale_invert (xScale (scales c)) mouseX).
  pose proof (bisect_left_lower (byDate c) x 1 (length (byDate c))) as Hlo.
  set (i := bisect_left (byDate c) x 1 (length (byDate c))) in *.
  destruct (byDate c !! i) as [e|] eqn:He; simpl.
  - pose proof (lookup_lt_Some _ _ _ He) as Hlen.
    destruct (byDate c !! (i - 1)) as [p|] eqn:Hp; simpl.
    + unfold findOutNearestDate.
      destruct (js_gt _ _); intros [= <- <-]; split; auto; lia.
    + intros [= <- <-]. split; [assumption|lia].
  - destruct (byDate c !! (i - 1)); discriminate.
Qed.

(** X8.  On a sorted index of two entries or more, a position whose date is valid
    finds a data point exactly when its date is not after the last date. *)
Theorem getNearestDataPoint_found_iff (c : Chart) (mouseX : Z) (final : DataPoint) :
  let x := scale_invert (xScale (scales c)) mouseX in
  isAscending (byDate c) = true ->
  2 <= length (byDate c) ->
  lastEntry (byDate c) = Some final ->
  js_ge x x = true ->
  (is_Some (getNearestDataPoint scale_invert c mouseX)
   <-> js_ge (dp_date final) x = true).
Proof.
  intros x Hasc Hlen Hlast Hx. split.
  - intros Hsome.
    destruct (js_lt (dp_date final) x) eqn:Hlt.
    + rewrite (getNearestDataPoint_after_last scale_invert c mouseX final
                 Hasc Hlast Hlt) in Hsome.
      destruct Hsome as [? ?]. discriminate.
    + pose proof (ascendingAt_valid (byDate c) (pred (length (byDate c))) final
                    (isAscending_ascendingAt _ Hasc)) as Hvalid.
      unfold lastEntry in Hlast. rewrite last_lookup in Hlast.
      destruct (Hvalid Hlast) as [t Ht]. rewrite Ht in *.
      destruct x; simpl in *; try discriminate.
      apply Z.leb_le. apply Z.ltb_ge in Hlt. lia.
  - intros Hge.
    pose proof (isAscending_ascendingAt _ Hasc) as Hat.
    unfold lastEntry in Hlast. rewrite last_lookup in Hlast.
    destruct (bisect_left_insertion (byDate c) x 1 (length (byDate c)) Hat
                ltac:(lia) (le_n _)) as (Hr & Hbefore & _).
    unfold getNearestDataPoint. fold x.
    set (i := bisect_left (byDate c) x 1 (length (byDate c))) in *.
    assert (Hi : i < length (byDate c)).
    { destruct (decide (i < length (byDate c))) as [|Hn]; [assumption|].
      specialize (Hbefore (pred (length (byDate c))) final ltac:(lia) Hlast).
      destruct (dp_date final), x; simpl in *; try discriminate.
      apply Z.leb_le in Hge. apply Z.ltb_lt in Hbefore. lia. }
    destruct (lookup_lt_is_Some_2 (byDate c) i Hi) as [e He].
    destruct (lookup_lt_is_Some_2 (byDate c) (i - 1) ltac:(lia)) as [p Hp].
    rewrite He, Hp. simpl. eauto.
Qed.

(** X9.  On a sorted index, the entry that the lookup returns for a valid date is
    a nearest entry of the whole index: no entry is nearer in time. *)
Theorem getNearestDataPoint_nearest (c : Chart) (mouseX : Z)
    (k : nat) (found : DataPoint) :
  let x := scale_invert (xScale (scales c)) mouseX in
  isAscending (byDate c) = true ->
  js_ge x x = true ->
  getNearestDataPoint scale_invert c mouseX = Some (k, found) ->
  forall j d, byDate c !! j = Some d ->
    js_ge (timeDistance (dp_date d) x) (timeDistance (dp_date found) x) = true.
Proof.
  intros x Hasc Hx Hfound j d Hd.
  pose proof (isAscending_ascendingAt _ Hasc) as Hat.
  pose proof (bisect_left_lower (byDate c) x 1 (length (byDate c))) as Hlo.
  set (i := bisect_left (byDate c) x 1 (length (byDate c))) in *.
  assert (Hboth : exists e p, byDate c !! i = Some e /\ byDate c !! (i - 1) = Some p).
  { unfold getNearestDataPoint in Hfound. fold x i in Hfound.
    destruct (byDate c !! i) as [e|] eqn:He.
    - pose proof (lookup_lt_Some _ _ _ He).
      destruct (lookup_lt_is_Some_2 (byDate c) (i - 1) ltac:(lia)) as [p Hp]. eauto.
    - destruct (byDate c !! (i - 1)); discriminate. }
  destruct Hboth as (e & p & He & Hp).
  pose proof (getNearestDataPoint_between scale_invert c mouseX e p Hasc He Hp)
    as Hnear. fold x i in Hnear. rewrite Hnear in Hfound.
  pose proof (lookup_lt_Some _ _ _ He) as Hi.
  destruct (bisect_left_insertion (byDate c) x 1 (length (byDate c)) Hat
              ltac:(lia) (le_n _)) as (_ & Hbefore & Hafter).
  fold i in Hbefore, Hafter.
  specialize (Hafter i e ltac:(lia) He).
  pose proof (Hat (i - 1) i p e ltac:(lia) Hp He) as Hpe.
  destruct (ascendingAt_valid _ _ _ Hat He) as [te Hte].
  destruct (ascendingAt_valid _ _ _ Hat Hp) as [tp Htp].
  destruct (ascendingAt_valid _ _ _ Hat Hd) as [td Htd].
  destruct x as [|x0] eqn:Hx0; [discriminate|].
  assert (Hxe : (x0 <= te)%Z).
  { rewrite Hte in Hafter. simpl in Hafter. apply Z.ltb_ge in Hafter. lia. }
  assert (Htpe : (tp <= te)%Z).
  { rewrite Hte, Htp in Hpe. simpl in Hpe. apply Z.leb_le in Hpe. lia. }
  assert (Hje : i <= j -> (te <= td)%Z).
  { intros Hj. pose proof (Hat i j e d Hj He Hd) as H.
    rewrite Hte, Htd in H. simpl in H. apply Z.leb_le in H. lia. }
  assert (Hjp : j <= i - 1 -> (td <= tp)%Z).
  { intros Hj. pose proof (Hat j (i - 1) d p Hj Hd Hp) as H.
    rewrite Htp, Htd in H. simpl in H. apply Z.leb_le in H. lia. }
  assert (Hprev : 2 <= i -> (tp < x0)%Z).
  { intros H2. pose proof (Hbefore (i - 1) p ltac:(lia) Hp) as H.
    rewrite Htp in H. simpl in H. apply Z.ltb_lt in H. lia. }
  assert (Hzero : i < 2 -> j <= i - 1 -> td = tp).
  { intros H2 Hj. assert (j = i - 1) as -> by lia.
    rewrite Hp in Hd. injection Hd as <-. congruence. }
  assert (Hdate : dp_date found
                  = if (Z.abs (te - x0) <? Z.abs (x0 - tp))%Z then Num te else Num tp).
  { unfold timeDistance in Hfound. rewrite Hte, Htp in Hfound. simpl in Hfound.
    destruct (Z.abs (te - x0) <? Z.abs (x0 - tp))%Z;
      injection Hfound as <- <-; assumption. }
  unfold timeDistance. rewrite Htd, Hdate.
  destruct (Z.ltb_spec (Z.abs (te - x0)) (Z.abs (x0 - tp))); simpl;
    apply Z.leb_le;
    destruct (decide (i <= j)) as [Hij|Hij];
    try (specialize (Hje Hij); lia);
    specialize (Hjp ltac:(lia));
    (destruct (decide (2 <= i)) as [H2|H2];
     [specialize (Hprev H2); lia
     |specialize (Hzero ltac:(lia) ltac:(lia)); lia]).
Qed.
End MoreNearest.

(** ** More on handleMouseMove *)

Lemma lookup_dates (a b : list DataPoint) (i : nat) :
  map dp_date a = map dp_date b ->
  dp_date <$> a !! i = dp_date <$> b !! i.
Proof. intros Heq. rewrite <- !map_lookup, Heq. reflexivity. Qed.

(** One turn of the loop of the bisection. *)
Lemma bisect_left_step (a : list DataPoint) (x : number) (lo hi : nat) :
  bisect_left a x lo hi
  = if decide (lo < hi) then
      match a !! ((lo + hi) / 2) with
      | None => lo
      | Some d =>
          if js_lt (ascending (dp_date d) x) (Num 0)
          then bisect_left a x ((lo + hi) / 2 + 1) hi
          else bisect_left a x lo ((lo + hi) / 2)
      end
    else lo.
Proof.
  funelim (bisect_left a x lo hi); clear Heqcall;
    repeat match goal with H : bisect_left _ _ _ _ = _ |- _ => clear H end;
    repeat match goal with H : _ = _ |- _ => rewrite H; clear H end;
    reflexivity.
Qed.

(** Bisection reads the dates of the entries only. *)
Lemma bisect_left_dates (a b : list DataPoint) (x : number) (lo hi : nat) :
  map dp_date a = map dp_date b ->
  bisect_left a x lo hi = bisect_left b x lo hi.
Proof.
  intros Heq. remember (hi - lo) as n eqn:Hn. revert lo hi Hn.
  induction n as [n IH] using lt_wf_ind. intros lo hi Hn.
  rewrite (bisect_left_step a), (bisect_left_step b).
  destruct (decide (lo < hi)) as [Hlt|]; [|reflexivity].
  assert (Hmid : lo <= (lo + hi) / 2 < hi).
  { split; [apply Nat.div_le_lower_bound|apply Nat.Div0.div_lt_upper_bound]; lia. }
  pose proof (lookup_dates a b ((lo + hi) / 2) Heq) as Hlook.
  destruct (a !! ((lo + hi) / 2)) as [da|], (b !! ((lo + hi) / 2)) as [db|];
    try discriminate; [|reflexivity].
  injection Hlook as ->.
  destruct (js_lt _ _); eapply IH; try reflexivity; lia.
Qed.

Lemma isAscending_dates (a b : list DataPoint) :
  map dp_date a = map dp_date b -> isAscending a = isAscending b.
Proof.
  revert b. induction a as [|x a IH]; intros [|y b] Heq; try discriminate;
    [reflexivity|].
  simpl in Heq. injection Heq as Hxy Hrest.
  change (isAscending (x :: a))
    with (js_ge (dp_date x) (dp_date x)
          && match a with
             | x' :: _ => js_ge (dp_date x') (dp_date x)
             | [] => true
             end
          && isAscending a).
  change (isAscending (y :: b))
    with (js_ge (dp_date y) (dp_date y)
          && match b with
             | y' :: _ => js_ge (dp_date y') (dp_date y)
             | [] => true
             end
          && isAscending b).
  rewrite (IH b Hrest), Hxy.
  destruct a, b; simpl in Hrest; try discriminate; [reflexivity|].
  injection Hrest as -> _. reflexivity.
Qed.

Section MoreHandle.
Variable scale_apply : ContinuousScale -> number -> number.
Variable scale_invert : ContinuousScale -> Z -> number.
Variable Array_sort :
  (FlatEntry -> FlatEntry -> number) -> list FlatEntry -> list FlatEntry.
Variable StringToNumber : string -> number.

#[local] Abbreviation handle :=
  (handleMouseMove scale_apply scale_invert Array_sort StringToNumber).

(** The lookup depends on the scales and on the dates of the index only. *)
Lemma getNearestDataPoint_dates (c c' : Chart) (mouseX : Z) :
  scales c' = scales c ->
  map dp_date (byDate c') = map dp_date (byDate c) ->
  match getNearestDataPoint scale_invert c mouseX with
  | Some (i, d) =>
      exists d', getNearestDataPoint scale_invert c' mouseX = Some (i, d')
                 /\ byDate c' !! i = Some d' /\ dp_date d' = dp_date d
  | None => getNearestDataPoint scale_invert c' mouseX = None
  end.
Proof.
  intros Hscales Hdates.
  assert (Hlen : length (byDate c') = length (byDate c)).
  { rewrite <- (length_map dp_date (byDate c')), Hdates. apply length_map. }
  unfold getNearestDataPoint. rewrite Hscales, Hlen.
  rewrite (bisect_left_dates (byDate c') (byDate c)) by assumption.
  set (x := scale_invert (xScale (scales c)) mouseX).
  set (i := bisect_left (byDate c) x 1 (length (byDate c))).
  pose proof (lookup_dates _ _ i Hdates) as He.
  pose proof (lookup_dates _ _ (i - 1) Hdates) as Hp.
  destruct (byDate c !! i) as [e|], (byDate c' !! i) as [e'|] eqn:He';
    try discriminate; simpl in *.
  - injection He as He.
    destruct (byDate c !! (i - 1)) as [p|], (byDate c' !! (i - 1)) as [p'|] eqn:Hp';
      try discriminate; simpl in *.
    + injection Hp as Hp. unfold findOutNearestDate. simpl. rewrite He, Hp.
      destruct (js_gt _ _); eauto.
    + eauto.
  - destruct (byDate c !! (i - 1)), (byDate c' !! (i - 1)); try discriminate;
      reflexivity.
Qed.

Lemma handleMouseMove_frame (c : Chart) (mouseX : Z) :
  config (handle c mouseX) = config c
  /\ scales (handle c mouseX) = scales c.
Proof.
  unfold handleMouseMove.
  destruct (getNearestDataPoint _ _ _) as [[i d]|]; split; reflexivity.
Qed.

Lemma handleMouseMove_dates (c : Chart) (mouseX : Z) :
  map dp_date (byDate (handle c mouseX)) = map dp_date (byDate c).
Proof.
  unfold handleMouseMove.
  destruct (getNearestDataPoint _ _ _) as [[i d]|] eqn:Hnear; [|reflexivity].
  apply getNearestDataPoint_lookup in Hnear as Hi. simpl.
  change (map dp_date (<[i := ?p]> ?l)) with (dp_date <$> <[i := p]> l).
  rewrite list_fmap_insert. simpl. apply list_insert_id.
  rewrite list_lookup_fmap, Hi. reflexivity.
Qed.

(** X10.  A pointer move changes neither the configuration nor the scales, and it
    leaves every entry of the by-date index at its place with its date: an
    index that is sorted stays sorted. *)
Theorem handleMouseMove_keeps_dates (c : Chart) (mouseX : Z) :
  config (handle c mouseX) = config c
  /\ scales (handle c mouseX) = scales c
  /\ map dp_date (byDate (handle c mouseX)) = map dp_date (byDate c)
  /\ isAscending (byDate (handle c mouseX)) = isAscending (byDate c).
Proof.
  destruct (handleMouseMove_frame c mouseX) as [Hconfig Hscales].
  pose proof (handleMouseMove_dates c mouseX) as Hdates.
  split_and!; try assumption.
  apply isAscending_dates. exact Hdates.
Qed.

Lemma handleMouseMove_found (c : Chart) (mouseX : Z) (i : nat) (d : DataPoint) :
  getNearestDataPoint scale_invert c (mouseX + - margin_left (margin (config c)))
  = Some (i, d) ->
  verticalMarkerX (handle c mouseX) = scale_apply (xScale (scales c)) (dp_date d)
  /\ length (dispatched (handle c mouseX)) = S (length (dispatched c)).
Proof.
  intros Hnear. unfold handleMouseMove. rewrite Hnear. simpl.
  rewrite length_app. simpl. split; [reflexivity|lia].
Qed.

(** X11.  A second pointer move at the same position finds the entry at the same
    place of the index, leaves the vertical marker where the first move put
    it, and dispatches one more event. *)
Theorem handleMouseMove_again (c : Chart) (mouseX : Z) :
  let position := (mouseX + - margin_left (margin (config c)))%Z in
  let once := handle c mouseX in
  let twice := handle once mouseX in
  verticalMarkerX twice = verticalMarkerX once
  /\ match getNearestDataPoint scale_invert c position with
     | Some (i, d) =>
         (exists d', getNearestDataPoint scale_invert once position = Some (i, d')
                     /\ dp_date d' = dp_date d)
         /\ length (dispatched once) = S (length (dispatched c))
         /\ length (dispatched twice) = S (S (length (dispatched c)))
     | None => twice = c
     end.
Proof.
  intros position once twice.
  destruct (handleMouseMove_frame c mouseX) as [Hcfg Hscales].
  pose proof (handleMouseMove_dates c mouseX) as Hdates.
  fold once in Hcfg, Hscales, Hdates.
  pose proof (getNearestDataPoint_dates c once position Hscales Hdates) as Hsame.
  destruct (getNearestDataPoint scale_invert c position) as [[i d]|] eqn:Hnear.
  - destruct Hsame as (d' & Hnear' & _ & Hd').
    destruct (handleMouseMove_found c mouseX i d Hnear) as [Hmarker Hlen].
    fold once in Hmarker, Hlen.
    assert (Hnear'' : getNearestDataPoint scale_invert once
                        (mouseX + - margin_left (margin (config once))) = Some (i, d'))
      by (rewrite Hcfg; exact Hnear').
    destruct (handleMouseMove_found once mouseX i d' Hnear'') as [Hmarker' Hlen'].
    fold twice in Hmarker', Hlen'.
    split_and!; eauto; congruence.
  - assert (Honce : once = c).
    { unfold once, handleMouseMove. fold position. rewrite Hnear. reflexivity. }
    assert (Htwice : twice = c).
    { unfold twice. rewrite Honce. exact Honce. }
    rewrite Htwice, Honce. split; reflexivity.
Qed.

Hypothesis sort_permutes : forall comparefn l, Array_sort comparefn l ≡ₚ l.

(** X12.  After a pointer move that finds a data point, the marker holds one
    circle for each topic of that point that is not falsy, with the color of
    the topic in [topicColorMap] and its value on the value scale; the
    circles of earlier moves are gone. *)
Theorem handleMouseMove_circles (c : Chart) (mouseX : Z) (i : nat) (d : DataPoint) :
  getNearestDataPoint scale_invert c (mouseX + - margin_left (margin (config c)))
  = Some (i, d) ->
  circles (handle c mouseX)
  ≡ₚ map (fun t => {| stroke := topicColorMap (scales c) !! name t;
                      translateY := scale_apply (yScale (scales c))
                                      (ToNumber StringToNumber (value t)) |})
         (filterTruthy (topics d))
  /\ length (circles (handle c mouseX)) = length (filterTruthy (topics d)).
Proof using sort_permutes.
  intros Hnear. unfold handleMouseMove. rewrite Hnear. simpl.
  assert (Hperm : highlightTopics Array_sort (topicColorMap (scales c)) (topics d)
                  ≡ₚ filterTruthy (topics d)) by apply sort_permutes.
  split.
  - apply Permutation_map. exact Hperm.
  - rewrite length_map. apply Permutation_length. exact Hperm.
Qed.

(** X13.  The topic list that a pointer move leaves on the data point it finds has
    no falsy slot and holds the topics that were not falsy, each as often as
    before; the other entries of the index are untouched. *)
Theorem handleMouseMove_topics (c : Chart) (mouseX : Z) (i : nat) (d : DataPoint) :
  getNearestDataPoint scale_invert c (mouseX + - margin_left (margin (config c)))
  = Some (i, d) ->
  exists d',
    byDate (handle c mouseX) !! i = Some d'
    /\ dp_date d' = dp_date d
    /\ (None ∉ topics d')
    /\ filterTruthy (topics d') ≡ₚ filterTruthy (topics d)
    /\ forall j, j <> i -> byDate (handle c mouseX) !! j = byDate c !! j.
Proof using sort_permutes.
  intros Hnear. pose proof (getNearestDataPoint_lookup _ _ _ _ _ Hnear) as Hi.
  unfold handleMouseMove. rewrite Hnear. simpl.
  eexists. split_and!.
  - apply list_lookup_insert_eq. eapply lookup_lt_Some. eassumption.
  - reflexivity.
  - simpl. intros Hin. apply list_elem_of_In, in_map_iff in Hin as (? & ? & _).
    discriminate.
  - simpl. rewrite filterTruthy_Some. apply sort_permutes.
  - intros j Hj. apply list_lookup_insert_ne. congruence.
Qed.
End MoreHandle.

(** X14.  As the pointer moves to a later date over a sorted index, the entry that
    the lookup finds never moves back. *)
Theorem getNearestDataPoint_monotone
    (scale_invert : ContinuousScale -> Z -> number)
    (c : Chart) (mouseX mouseX' : Z) (k k' : nat) (d d' : DataPoint) :
  let x := scale_invert (xScale (scales c)) mouseX in
  let x' := scale_invert (xScale (scales c)) mouseX' in
  isAscending (byDate c) = true ->
  js_ge x' x = true ->
  getNearestDataPoint scale_invert c mouseX = Some (k, d) ->
  getNearestDataPoint scale_invert c mouseX' = Some (k', d') ->
  k <= k'.
Proof.
  intros x x' Hasc Hxx Hk Hk'.
  pose proof (isAscending_ascendingAt _ Hasc) as Hat.
  assert (Hlen : 1 <= length (byDate c)).
  { pose proof (getNearestDataPoint_lookup _ _ _ _ _ Hk) as Hin.
    apply lookup_lt_Some in Hin. lia. }
  destruct (bisect_left_insertion (byDate c) x 1 (length (byDate c)) Hat
              ltac:(lia) (le_n _)) as (Hr & Hbefore & Hafter).
  destruct (bisect_left_insertion (byDate c) x' 1 (length (byDate c)) Hat
              ltac:(lia) (le_n _)) as (Hr' & Hbefore' & Hafter').
  set (i := bisect_left (byDate c) x 1 (length (byDate c))) in *.
  set (i' := bisect_left (byDate c) x' 1 (length (byDate c))) in *.
  assert (Hboth : forall m q r y, getNearestDataPoint scale_invert c m = Some (q, r) ->
            y = bisect_left (byDate c) (scale_invert (xScale (scales c)) m) 1
                  (length (byDate c)) ->
            exists e p, byDate c !! y = Some e /\ byDate c !! (y - 1) = Some p).
  { intros m q r y Hm ->. unfold getNearestDataPoint in Hm.
    pose proof (bisect_left_lower (byDate c) (scale_invert (xScale (scales c)) m)
                  1 (length (byDate c))) as Hlow.
    destruct (byDate c !! bisect_left _ _ _ _) as [e|] eqn:He.
    - pose proof (lookup_lt_Some _ _ _ He).
      destruct (lookup_lt_is_Some_2 (byDate c)
                  (bisect_left (byDate c) (scale_invert (xScale (scales c)) m) 1
                     (length (byDate c)) - 1) ltac:(lia)) as [p Hp]. eauto.
    - destruct (byDate c !! (_ - 1)); discriminate. }
  destruct (Hboth mouseX k d i Hk eq_refl) as (e & p & He & Hp).
  destruct (Hboth mouseX' k' d' i' Hk' eq_refl) as (e' & p' & He' & Hp').
  pose proof (lookup_lt_Some _ _ _ He) as Hi.
  pose proof (lookup_lt_Some _ _ _ He') as Hi'.
  pose proof (getNearestDataPoint_between scale_invert c mouseX e p Hasc He Hp) as Hn.
  pose proof (getNearestDataPoint_between scale_invert c mouseX' e' p' Hasc He' Hp') as Hn'.
  fold x i in Hn. fold x' i' in Hn'. rewrite Hn in Hk. rewrite Hn' in Hk'.
  assert (Hii : i <= i').
  { destruct (decide (i <= i')) as [|Hgt]; [assumption|].
    specialize (Hbefore i' e' ltac:(lia) He').
    specialize (Hafter' i' e' ltac:(lia) He').
    destruct (dp_date e'), x, x'; simpl in *; try discriminate.
    apply Z.ltb_lt in Hbefore. apply Z.ltb_ge in Hafter'. apply Z.leb_le in Hxx. lia. }
  destruct (decide (i = i')) as [Heq|Hne].
  - rewrite <- Heq in *. rewrite He in He'. injection He' as <-.
    rewrite Hp in Hp'. injection Hp' as <-.
    specialize (Hafter i e ltac:(lia) He). specialize (Hafter' i e ltac:(lia) He).
    pose proof (Hat (i - 1) i p e ltac:(lia) Hp He) as Hpe.
    unfold timeDistance in *.
    destruct (dp_date e) as [|te], (dp_date p) as [|tp], x as [|x0], x' as [|x1];
      simpl in *; try discriminate.
    apply Z.ltb_ge in Hafter, Hafter'. apply Z.leb_le in Hxx, Hpe.
    destruct (Z.ltb_spec (Z.abs (te - x0)) (Z.abs (x0 - tp))),
      (Z.ltb_spec (Z.abs (te - x1)) (Z.abs (x1 - tp)));
      injection Hk as <- _; injection Hk' as <- _; lia.
  - destruct (js_lt _ _) in Hk; destruct (js_lt _ _) in Hk';
      injection Hk as <- _; injection Hk' as <- _; lia.
Qed.

(** ** Sorting *)
Section SortFacts.
Context {A : Type} (comparefn : A -> A -> number).

Lemma insertFromRight_permutes (element : A) (prefix : list A) :
  insertFromRight comparefn element prefix ≡ₚ element :: prefix.
Proof.
  induction prefix as [|tmp rest IH]; simpl; [reflexivity|].
  destruct (comparefn tmp element) as [|y]; [reflexivity|].
  destruct (0 <? y)%Z; [|reflexivity].
  rewrite IH. apply perm_swap.
Qed.

(** The insertion sort rearranges, whatever the comparison function is. *)
Lemma insertionSort_permutes (a : list A) : insertionSort comparefn a ≡ₚ a.
Proof.
  unfold insertionSort. rewrite <- Permutation_rev.
  assert (Hfold : forall prefix,
            fold_left (fun p e => insertFromRight comparefn e p) a prefix
            ≡ₚ prefix ++ a).
  { induction a as [|e a' IH]; intros prefix; simpl.
    - rewrite app_nil_r. reflexivity.
    - rewrite IH, insertFromRight_permutes. apply Permutation_middle. }
  apply Hfold.
Qed.
End SortFacts.

(** ** More on buildAxis *)

(** X15.  The number of ticks of the y axis never exceeds the configured count, and
    it is the configured count when the span of the domain is not a number,
    as for a dataset without values. *)
Theorem yTickNumber_at_most (cfg : Config) (s : ContinuousScale) :
  js_gt (yTickNumber cfg s) (verticalTicks cfg) = false
  /\ (dataTimeSpan s = NaN -> yTickNumber cfg s = verticalTicks cfg).
Proof.
  unfold yTickNumber, js_gt. split.
  - destruct (js_lt (dataTimeSpan s) (js_sub (verticalTicks cfg) (Num 1))) eqn:Hlt;
      [|apply js_lt_irrefl].
    destruct (dataTimeSpan s), (verticalTicks cfg); simpl in *; try discriminate.
    apply Z.ltb_lt in Hlt. apply Z.ltb_ge. lia.
  - intros ->. reflexivity.
Qed.

(** ** The theorems above on the chart of two topics *)

Lemma getNearestDataPoint_in_index_witness :
  exists c found,
    render defaultConfig (chartData twoTopics) = Return c
    /\ getNearestDataPoint linear_invert c 430 = Some (0, found)
    /\ byDate c !! 0 = Some found
    /\ 2 <= length (byDate c).
Proof.
  eexists. eexists. split; [vm_compute; reflexivity|]. split; [reflexivity|].
  refine (getNearestDataPoint_in_index linear_invert _ 430 0 _ _). reflexivity.
Defined.

Lemma getNearestDataPoint_found_iff_witness :
  exists c final,
    render defaultConfig (chartData twoTopics) = Return c
    /\ isAscending (byDate c) = true
    /\ lastEntry (byDate c) = Some final
    /\ (is_Some (getNearestDataPoint linear_invert c 430)
        <-> js_ge (dp_date final) (linear_invert (xScale (scales c)) 430) = true).
Proof.
  eexists. eexists. split; [vm_compute; reflexivity|]. split; [reflexivity|].
  split; [reflexivity|].
  refine (getNearestDataPoint_found_iff linear_invert _ 430 _ _ _ _ _);
    [reflexivity|simpl; lia|reflexivity|reflexivity].
Defined.

Lemma getNearestDataPoint_nearest_witness :
  exists c found,
    render defaultConfig (chartData twoTopics) = Return c
    /\ isAscending (byDate c) = true
    /\ getNearestDataPoint linear_invert c 431 = Some (1, found)
    /\ forall j d, byDate c !! j = Some d ->
         js_ge (timeDistance (dp_date d) (linear_invert (xScale (scales c)) 431))
               (timeDistance (dp_date found) (linear_invert (xScale (scales c)) 431))
         = true.
Proof.
  eexists. eexists. split; [vm_compute; reflexivity|]. split; [reflexivity|].
  split; [reflexivity|].
  refine (getNearestDataPoint_nearest linear_invert _ 431 1 _ _ _ _); reflexivity.
Defined.

Lemma getNearestDataPoint_monotone_witness :
  exists c d d',
    render defaultConfig (chartData twoTopics) = Return c
    /\ isAscending (byDate c) = true
    /\ getNearestDataPoint linear_invert c 430 = Some (0, d)
    /\ getNearestDataPoint linear_invert c 431 = Some (1, d')
    /\ 0 <= 1.
Proof.
  eexists. eexists. eexists. split; [vm_compute; reflexivity|].
  match goal with
  | |- isAscending (byDate ?c) = true /\ _ =>
      split; [reflexivity|]; split; [reflexivity|]; split; [reflexivity|];
      refine (getNearestDataPoint_monotone linear_invert c 430 431 0 1 _ _ _ _ _ _);
      reflexivity
  end.
Defined.

Lemma handleMouseMove_circles_witness :
  exists c d,
    render defaultConfig (chartData twoTopics) = Return c
    /\ getNearestDataPoint linear_invert c (500 + - 70) = Some (0, d)
    /\ length (circles (handleMouseMove linear_apply linear_invert insertionSort
                          StringToNumber_decimal c 500)) = 2.
Proof.
  eexists. eexists. split; [vm_compute; reflexivity|].
  match goal with
  | |- getNearestDataPoint _ ?c _ = Some (0, ?d) /\ _ =>
      split; [reflexivity|];
      refine (proj2 (handleMouseMove_circles linear_apply linear_invert
                       insertionSort StringToNumber_decimal
                       (fun comparefn l => insertionSort_permutes comparefn l)
                       c 500 0 d _));
      reflexivity
  end.
Defined.

Lemma handleMouseMove_topics_witness :
  exists c d,
    render defaultConfig (chartData twoTopics) = Return c
    /\ getNearestDataPoint linear_invert c (500 + - 70) = Some (0, d)
    /\ exists d',
         byDate (handleMouseMove linear_apply linear_invert insertionSort
                   StringToNumber_decimal c 500) !! 0 = Some d'
         /\ filterTruthy (topics d') ≡ₚ filterTruthy (topics d).
Proof.
  eexists. eexists. split; [vm_compute; reflexivity|].
  match goal with
  | |- getNearestDataPoint _ ?c _ = Some (0, ?d) /\ _ =>
      split; [reflexivity|];
      destruct (handleMouseMove_topics linear_apply linear_invert insertionSort
                  StringToNumber_decimal
                  (fun comparefn l => insertionSort_permutes comparefn l)
                  c 500 0 d eq_refl) as (d' & Hd' & _ & _ & Hperm & _)
  end.
  exists d'. split; [exact Hd'|exact Hperm].
Defined.
